(** * app.py: salary parsing, city canonicalisation, record cleaning, filtering

    A shallow embedding of the data-processing core of [app.py]:
    [parse_salary_intelligently], the city extraction and alias lookup, the
    row filter of [clean_and_process_data], the filter block of [main] and the
    [nlargest] call of [display_kpis_and_diagnostics].

    Modelling conventions.
    - A Python [str] is a [string]; each character stands for the code point
      of the same number, so the model covers text whose code points lie
      below 256.  [lower], [strip] and the class [\d] are written out for
      that range.
    - A Python [float] is a rational [Q]: sums, quotients and comparisons are
      exact.  Rounding, overflow to [inf] and underflow to [0.0] of binary
      floating point are outside the model.  Numeric results are compared
      with [==] where the representation of the fraction does not matter.
    - An exception is a value [Raise e] of the result type [Exc]. *)

From Stdlib Require Import Bool Ascii String List ZArith NArith QArith Lia Lqa.
From Stdlib Require Import Permutation Sorting.Sorted.
Import ListNotations.

Local Open Scope string_scope.
Local Open Scope list_scope.

(** ** Python string primitives *)

Module PyStr.

Definition code (c : ascii) : N := N_of_ascii c.

(** [\d] on code points below 256: the ten ASCII digits. *)
Definition is_digit (c : ascii) : bool :=
  ((48 <=? code c) && (code c <=? 57))%N.

(** [str.isspace] on code points below 256. *)
Definition is_space (c : ascii) : bool :=
  let n := code c in
  (((9 <=? n) && (n <=? 13)) || ((28 <=? n) && (n <=? 32))
   || (n =? 133) || (n =? 160))%N.

(** [str.lower] on one character: A-Z, and the Latin-1 capitals
    U+00C0..U+00DE except the multiplication sign U+00D7. *)
Definition lower_char (c : ascii) : ascii :=
  let n := code c in
  if (((65 <=? n) && (n <=? 90))
      || ((192 <=? n) && (n <=? 222) && negb (n =? 215)))%N
  then ascii_of_N (n + 32) else c.

Fixpoint lower (s : string) : string :=
  match s with
  | EmptyString => EmptyString
  | String c r => String (lower_char c) (lower r)
  end.

(** [s.replace(x, '')] for a one-character [x]. *)
Fixpoint remove_char (x : ascii) (s : string) : string :=
  match s with
  | EmptyString => EmptyString
  | String c r => if Ascii.eqb c x then remove_char x r
                  else String c (remove_char x r)
  end.

(** [s.split(x)[0]]: the text before the first [x], all of [s] without one. *)
Fixpoint before (x : ascii) (s : string) : string :=
  match s with
  | EmptyString => EmptyString
  | String c r => if Ascii.eqb c x then EmptyString else String c (before x r)
  end.

(** The text after the first [x]; empty without one. *)
Fixpoint after (x : ascii) (s : string) : string :=
  match s with
  | EmptyString => EmptyString
  | String c r => if Ascii.eqb c x then r else after x r
  end.

Fixpoint lstrip (s : string) : string :=
  match s with
  | EmptyString => EmptyString
  | String c r => if is_space c then lstrip r else s
  end.

Fixpoint rstrip (s : string) : string :=
  match s with
  | EmptyString => EmptyString
  | String c r =>
      match rstrip r with
      | EmptyString => if is_space c then EmptyString else String c EmptyString
      | r' => String c r'
      end
  end.

(** [s.strip()] *)
Definition strip (s : string) : string := rstrip (lstrip s).

(** [needle in hay] *)
Fixpoint contains (needle hay : string) : bool :=
  String.prefix needle hay ||
  match hay with
  | EmptyString => false
  | String _ r => contains needle r
  end.

Fixpoint all_chars (p : ascii -> bool) (s : string) : bool :=
  match s with
  | EmptyString => true
  | String c r => p c && all_chars p r
  end.

Definition first_char (s : string) : option ascii :=
  match s with
  | EmptyString => None
  | String c _ => Some c
  end.

Fixpoint last_char (s : string) : option ascii :=
  match s with
  | EmptyString => None
  | String c r => match r with
                  | EmptyString => Some c
                  | String _ _ => last_char r
                  end
  end.

(** The character, if there is one, is not white space. *)
Definition not_space (o : option ascii) : Prop :=
  match o with
  | None => True
  | Some c => is_space c = false
  end.

Definition spaces (s : string) : Prop := all_chars is_space s = true.

Definition comma_free (s : string) : Prop :=
  all_chars (fun c => negb (Ascii.eqb c ",")) s = true.

(** [needle] is a substring of [hay]. *)
Definition occurs (needle hay : string) : Prop :=
  exists pre post : string, hay = (pre ++ needle ++ post)%string.

Definition no_digits (s : string) : Prop :=
  all_chars (fun c => negb (is_digit c)) s = true.

Definition digits (s : string) : Prop := all_chars is_digit s = true.

(** The texts [float] is applied to: one or more digits, then possibly a
    dot and further digits. *)
Definition number_shaped (t : string) : Prop :=
  exists d1 : string, d1 <> EmptyString /\ digits d1 /\
    (t = d1
     \/ exists d2 : string, digits d2 /\ t = (d1 ++ String "." d2)%string).

End PyStr.

(** ** [re.findall(r'\d+\.?\d*', s)] *)

Module Regex.
Import PyStr.

(** The scanner reads the text once, left to right.  [Outside]: no match is
    open.  [InInt acc]: inside [\d+].  [InFrac acc]: past the optional dot,
    inside [\d*].  Every part of the pattern after the first digit is
    optional and greedy, so a match is closed exactly when the next character
    cannot extend it, and the scan resumes after the match. *)
Inductive scan_state : Type :=
| Outside
| InInt (acc : string)
| InFrac (acc : string).

Definition snoc (acc : string) (c : ascii) : string :=
  (acc ++ String c EmptyString)%string.

Fixpoint scan (st : scan_state) (s : string) : list string :=
  match s with
  | EmptyString =>
      match st with
      | Outside => []
      | InInt acc | InFrac acc => [acc]
      end
  | String c r =>
      match st with
      | Outside =>
          if is_digit c then scan (InInt (String c EmptyString)) r
          else scan Outside r
      | InInt acc =>
          if is_digit c then scan (InInt (snoc acc c)) r
          else if Ascii.eqb c "." then scan (InFrac (snoc acc c)) r
          else acc :: scan Outside r
      | InFrac acc =>
          if is_digit c then scan (InFrac (snoc acc c)) r
          else acc :: scan Outside r
      end
  end.

Definition findall (s : string) : list string := scan Outside s.

(** The same matches, one at a time: the longest run of digits, then a dot
    if one follows, then the longest run of digits. *)
Fixpoint take_digits (s : string) : string * string :=
  match s with
  | EmptyString => (EmptyString, EmptyString)
  | String c r =>
      if is_digit c
      then let '(d, rest) := take_digits r in (String c d, rest)
      else (EmptyString, s)
  end.

Definition match_number (s : string) : string * string :=
  let '(d1, r1) := take_digits s in
  match r1 with
  | String "."%char r2 =>
      let '(d2, r3) := take_digits r2 in
      ((d1 ++ String "."%char d2)%string, r3)
  | _ => (d1, r1)
  end.

End Regex.

(** ** Python values and exceptions *)

Inductive PyVal : Type :=
| VNone
| VNaN
| VStr (s : string)
| VNum (q : Q)
| VList (l : list string).

Inductive PyErr : Type :=
| KeyError (column : string)
| AttributeError
| ValueError.

Inductive Exc (A : Type) : Type :=
| Ok (a : A)
| Raise (e : PyErr).
Arguments Ok {A} a.
Arguments Raise {A} e.

Definition bind {A B : Type} (m : Exc A) (k : A -> Exc B) : Exc B :=
  match m with
  | Ok a => k a
  | Raise e => Raise e
  end.

Notation "x <- m ;; k" := (bind m (fun x => k))
  (at level 61, m at next level, right associativity).

Fixpoint mapM {A B : Type} (f : A -> Exc B) (l : list A) : Exc (list B) :=
  match l with
  | [] => Ok []
  | a :: r => b <- f a ;; bs <- mapM f r ;; Ok (b :: bs)
  end.

(** ** [parse_salary_intelligently] *)

Module Salary.
Import PyStr Regex.

Record SalaryInfo : Type := mkInfo {
  hourly_rate : option Q;
  pay_period : string
}.

Fixpoint digits_value (acc : N) (s : string) : N :=
  match s with
  | EmptyString => acc
  | String c r => digits_value (10 * acc + (code c - 48)) r
  end.

Fixpoint pow10 (k : nat) : positive :=
  match k with
  | O => 1%positive
  | S k' => (10 * pow10 k')%positive
  end.

(** [float(tok)] for a match of the pattern: digits, with at most one dot. *)
Definition float_of (tok : string) : Q :=
  let ip := before "." tok in
  let fp := after "." tok in
  Z.of_N (digits_value 0 (ip ++ fp)%string) # pow10 (String.length fp).

(** [sum(xs)]: Python adds from the left, starting at 0. *)
Definition sum (xs : list Q) : Q := fold_left Qplus xs 0.

Definition mean (xs : list Q) : Q :=
  sum xs / inject_Z (Z.of_nat (List.length xs)).

Definition Qgtb (a b : Q) : bool := negb (Qle_bool a b).

(** [salary_str.lower().replace(',', '')] *)
Definition s_lower (salary_str : string) : string :=
  remove_char "," (lower salary_str).

Definition numbers_str (salary_str : string) : list string :=
  findall (s_lower salary_str).

Definition avg_salary (salary_str : string) : Q :=
  mean (map float_of (numbers_str salary_str)).

Definition unknown : SalaryInfo := mkInfo None "Unknown".

Definition parse_salary_intelligently (salary_str : PyVal) : SalaryInfo :=
  match salary_str with
  | VStr s =>
      let low := s_lower s in
      match numbers_str s with
      | [] => unknown
      | _ :: _ =>
          let avg := avg_salary s in
          if contains "year" low then mkInfo (Some (avg / 2080)) "Annual"
          else if contains "month" low
               then mkInfo (Some (avg / (17333 # 100))) "Monthly"
          else if contains "week" low then mkInfo (Some (avg / 40)) "Weekly"
          else if Qgtb avg 2000
               then mkInfo (Some (avg / 2080)) "Annual (Inferred)"
          else mkInfo (Some avg) "Hourly"
      end
  | _ => unknown
  end.

End Salary.

(** ** City extraction and alias lookup *)

Module City.
Import PyStr.

Definition CITY_NORMALIZATION_MAP : list (string * string) :=
  [ ("south brunswick township", "South Brunswick");
    ("north brunswick township", "North Brunswick");
    ("edison township", "Edison");
    ("new brunswick city", "New Brunswick");
    ("jersey city", "Jersey City") ].

(** [d.get(k, default)] *)
Fixpoint dict_get (d : list (string * string)) (k default : string) : string :=
  match d with
  | [] => default
  | (k', v) :: r => if String.eqb k' k then v else dict_get r k default
  end.

(** [lambda x: x.split(',')[0].strip() if pd.notnull(x) else 'Unknown'].
    A number is not null and has no [split].  [pd.notnull] of a list is an
    array: its truth value is that of its element when there is exactly one
    (a string, not null, and a list has no [split]) and is refused by NumPy
    otherwise. *)
Definition extract_city (location : PyVal) : Exc string :=
  match location with
  | VNone | VNaN => Ok "Unknown"
  | VStr x => Ok (strip (before "," x))
  | VNum _ => Raise AttributeError
  | VList [_] => Raise AttributeError
  | VList _ => Raise ValueError
  end.

(** [lambda name: CITY_NORMALIZATION_MAP.get(name.lower(), name)] *)
Definition canonicalize (name : string) : string :=
  dict_get CITY_NORMALIZATION_MAP (lower name) name.

End City.

(** ** Records and [clean_and_process_data] *)

Record RawRecord : Type := mkRaw {
  title : PyVal;
  company : PyVal;
  location : PyVal;
  salary : PyVal;
  benefits : PyVal;
  url : PyVal
}.

(** A frame is its column labels and its rows; the cells of a row under a
    label that is not among [columns] are never read. *)
Record DataFrame : Type := mkFrame {
  columns : list string;
  rows : list RawRecord
}.

Record CanonicalRecord : Type := mkCanonical {
  c_title : PyVal;
  c_company : PyVal;
  c_location : PyVal;
  c_salary : PyVal;
  c_benefits : list string;
  c_url : PyVal;
  hourly_rate : Q;
  pay_period : string;
  original_city : string;
  city : string
}.

Definition has_column (df : DataFrame) (name : string) : bool :=
  existsb (String.eqb name) (columns df).

Module Normalizer.
Import City.

(** Lines 65-69: the parse of each row's salary cell, or null and "Unknown"
    for every row of a frame without the column. *)
Definition salary_data (df : DataFrame)
  : list (RawRecord * Salary.SalaryInfo) :=
  if has_column df "salary"
  then map (fun r => (r, Salary.parse_salary_intelligently (salary r)))
           (rows df)
  else map (fun r => (r, Salary.unknown)) (rows df).

(** Lines 71-72 on one row: [dropna] on the rate, then [rate > 0]. *)
Definition keep_row (ri : RawRecord * Salary.SalaryInfo)
  : option (RawRecord * Q * string) :=
  match Salary.hourly_rate (snd ri) with
  | None => None
  | Some q => if Salary.Qgtb q 0
              then Some (fst ri, q, Salary.pay_period (snd ri))
              else None
  end.

Fixpoint filter_map {A B : Type} (f : A -> option B) (l : list A) : list B :=
  match l with
  | [] => []
  | a :: r => match f a with
              | Some b => b :: filter_map f r
              | None => filter_map f r
              end
  end.

(** Line 79: [d if isinstance(d, list) else []]; on a frame without the
    column line 78 first fills it with empty lists. *)
Definition coerce_benefits (has : bool) (d : PyVal) : list string :=
  if has then match d with VList l => l | _ => [] end else [].

Definition finish_row (has_benefits : bool) (k : RawRecord * Q * string)
  : Exc CanonicalRecord :=
  let '(r, q, period) := k in
  oc <- extract_city (location r) ;;
  Ok (mkCanonical (title r) (company r) (location r) (salary r)
        (coerce_benefits has_benefits (benefits r)) (url r)
        q period oc (canonicalize oc)).

(** Lines 49-81.  On a frame without rows [Series.apply] does not call its
    function and returns an empty series, so line 67 adds no rate column and
    line 71 raises unless the frame brought an [hourly_rate] column of its
    own.  On a frame with rows and a salary column, line 67 appends the two
    parsed columns; when the frame already has a column labelled
    [hourly_rate] the label is then doubled, [df['hourly_rate']] is a frame
    and the selection of line 72 raises ValueError.  The cells of a column
    other than the six raw ones are not part of a frame here: the outcome
    given for a doubled label is the one on a frame that the cleaning
    returned, where the column holds the positive rates and every row is
    left after line 71.  Without a salary column line 69 overwrites such a
    column.  When no row is left after line 72,
    line 73 returns an empty frame before the location column is read.
    A record holds the parsed period; a column labelled [pay_period] that the
    frame brought stays in the frame beside it, like any column that is not
    one of the six raw ones, and is not part of the record. *)
Definition clean_and_process_data (df : DataFrame)
  : Exc (list CanonicalRecord) :=
  match rows df with
  | [] =>
      if has_column df "salary" && negb (has_column df "hourly_rate")
      then Raise (KeyError "hourly_rate")
      else Ok []
  | _ :: _ =>
      if has_column df "salary" && has_column df "hourly_rate"
      then Raise ValueError
      else
        match filter_map keep_row (salary_data df) with
        | [] => Ok []
        | kept =>
            if has_column df "location"
            then mapM (finish_row (has_column df "benefits")) kept
            else Raise (KeyError "location")
        end
  end.

(** A canonical record read back as a raw one, and a canonical dataset as a
    frame with the raw columns; the empty dataset is the frame without
    columns that line 73 returns. *)
Definition as_raw (c : CanonicalRecord) : RawRecord :=
  mkRaw (c_title c) (c_company c) (c_location c) (c_salary c)
        (VList (c_benefits c)) (c_url c).

Definition RAW_COLUMNS : list string :=
  ["title"; "company"; "location"; "salary"; "benefits"; "url"].


(** The frame that line 81 returns, all its columns kept: the six raw ones
    and the four derived ones.  The cells of the derived columns are not
    part of a raw row; the cleaning does not get as far as reading them. *)
Definition CANONICAL_COLUMNS : list string :=
  RAW_COLUMNS ++ ["hourly_rate"; "pay_period"; "original_city"; "city"].

Definition canonical_frame (cs : list CanonicalRecord) : DataFrame :=
  match cs with
  | [] => mkFrame [] []
  | _ :: _ => mkFrame CANONICAL_COLUMNS (map as_raw cs)
  end.

(** The rows that survive lines 71-72. *)
Definition usable (df : DataFrame) (r : RawRecord) : bool :=
  has_column df "salary" &&
  match Salary.hourly_rate (Salary.parse_salary_intelligently (salary r)) with
  | None => false
  | Some q => Salary.Qgtb q 0
  end.

(** What the cleaning establishes for a record: its rate and period are the
    parse of its salary cell, the rate is positive, and its two city fields
    come from its location cell. *)
Definition canonical_ok (c : CanonicalRecord) : Prop :=
  Salary.parse_salary_intelligently (c_salary c)
    = Salary.mkInfo (Some (hourly_rate c)) (pay_period c)
  /\ (0 < hourly_rate c)%Q
  /\ extract_city (c_location c) = Ok (original_city c)
  /\ city c = canonicalize (original_city c).

(** The record is the cleaned form of the raw row. *)
Definition cleaned_from (df : DataFrame) (r : RawRecord) (c : CanonicalRecord)
  : Prop :=
  c_title c = title r /\ c_company c = company r /\ c_location c = location r
  /\ c_salary c = salary r /\ c_url c = url r
  /\ c_benefits c = coerce_benefits (has_column df "benefits") (benefits r).


(** A small frame: a yearly range, an hourly rate, a zero rate, a salary
    that is a number, a salary without digits. *)
Definition sample_frame : DataFrame :=
  mkFrame RAW_COLUMNS
    [ mkRaw (VStr "Forklift Driver") (VStr "Acme")
            (VStr " South Brunswick TOWNSHIP , NJ")
            (VStr "$45,000 - $50,000 a year") VNaN VNone;
      mkRaw (VStr "Packer") (VStr "Bolt") VNaN
            (VStr "$20 per hour") (VList ["401k"]) VNone;
      mkRaw (VStr "Picker") (VStr "Bolt") (VStr "Edison, NJ")
            (VStr "$0 per hour") (VList []) VNone;
      mkRaw VNaN (VStr "Crate") (VStr "Edison, NJ")
            (VNum 18) VNaN VNone;
      mkRaw (VStr "Lead") (VStr "Crate") (VNum 7)
            (VStr "negotiable") VNaN VNone ].

Definition sample_clean : list CanonicalRecord :=
  [ mkCanonical (VStr "Forklift Driver") (VStr "Acme")
      (VStr " South Brunswick TOWNSHIP , NJ")
      (VStr "$45,000 - $50,000 a year") [] VNone
      (95000 # 4160) "Annual" "South Brunswick TOWNSHIP" "South Brunswick";
    mkCanonical (VStr "Packer") (VStr "Bolt") VNaN
      (VStr "$20 per hour") ["401k"] VNone
      20 "Hourly" "Unknown" "Unknown" ].

End Normalizer.

(** ** The filter block of [main] *)

Module Filter.
Import PyStr.

Record FilterCriteria : Type := mkCriteria {
  f_city : string;
  f_pay_periods : list string;
  f_keyword : string;
  f_salary_range : Q * Q
}.

Definition ALL_CITIES : string := "-- All Cities --".

(** [Series.str.contains(pat, case=False, na=False)] compiles [pat] as a
    regular expression with [re.IGNORECASE] and searches each string cell.
    The model covers the patterns made of ordinary characters and the dot;
    a pattern with another metacharacter is outside it ([None]). *)
Inductive re_item : Type :=
| Lit (c : ascii)
| AnyChar.

Definition is_special (c : ascii) : bool :=
  existsb (Ascii.eqb c)
    (list_ascii_of_string ".^$*+?{}[]\|()").

Fixpoint compile (pat : string) : option (list re_item) :=
  match pat with
  | EmptyString => Some []
  | String c r =>
      match compile r with
      | None => None
      | Some items =>
          if Ascii.eqb c "." then Some (AnyChar :: items)
          else if is_special c then None
          else Some (Lit (lower_char c) :: items)
      end
  end.

Definition item_matches (i : re_item) (c : ascii) : bool :=
  match i with
  | Lit l => Ascii.eqb (lower_char c) l
  | AnyChar => negb (Ascii.eqb c "010")
  end.

Fixpoint match_here (p : list re_item) (s : string) : bool :=
  match p, s with
  | [], _ => true
  | _ :: _, EmptyString => false
  | i :: p', String c r => item_matches i c && match_here p' r
  end.

Fixpoint search (p : list re_item) (s : string) : bool :=
  match_here p s ||
  match s with
  | EmptyString => false
  | String _ r => search p r
  end.

(** One cell of [title]; a cell that is not a string counts as [na]. *)
Definition str_contains (p : list re_item) (cell : PyVal) : bool :=
  match cell with
  | VStr t => search p t
  | _ => false
  end.

(** The substring test the keyword filter is described by. *)
Definition icontains (keyword : string) (cell : PyVal) : bool :=
  match cell with
  | VStr t => contains (lower keyword) (lower t)
  | _ => false
  end.

Definition city_pass (f : FilterCriteria) (c : CanonicalRecord) : bool :=
  if String.eqb (f_city f) ALL_CITIES then true
  else String.eqb (city c) (f_city f).

Definition isin (x : string) (l : list string) : bool :=
  existsb (String.eqb x) l.

Definition range_pass (f : FilterCriteria) (c : CanonicalRecord) : bool :=
  isin (pay_period c) (f_pay_periods f)
  && Qle_bool (fst (f_salary_range f)) (hourly_rate c)
  && Qle_bool (hourly_rate c) (snd (f_salary_range f)).

(** Lines 221-232, on a cleaned dataset that has the title column. *)
Definition apply_filters (df : list CanonicalRecord) (f : FilterCriteria)
  : option (list CanonicalRecord) :=
  let by_city := if String.eqb (f_city f) ALL_CITIES then df
                 else filter (fun c => String.eqb (city c) (f_city f)) df in
  let by_range := filter (range_pass f) by_city in
  match f_keyword f with
  | EmptyString => Some by_range
  | kw =>
      match compile kw with
      | None => None
      | Some p => Some (filter (fun c => str_contains p (c_title c)) by_range)
      end
  end.

(** The conjunction the filter is described by, with the keyword as a
    substring. *)
Definition passes (f : FilterCriteria) (c : CanonicalRecord) : bool :=
  city_pass f c && range_pass f c
  && match f_keyword f with
     | EmptyString => true
     | kw => icontains kw (c_title c)
     end.

Definition ordinary (kw : string) : Prop :=
  all_chars (fun c => negb (is_special c)) kw = true.

Definition driver : CanonicalRecord :=
  mkCanonical (VStr "Forklift Driver") (VStr "Acme") (VStr "Edison, NJ")
    (VStr "$20 per hour") [] VNone 20 "Hourly" "Edison" "Edison".

Definition dot_keyword : FilterCriteria :=
  mkCriteria ALL_CITIES ["Hourly"] "." (0, 100).

End Filter.

(** ** [df.nlargest(10, 'hourly_rate')] *)

Module TopN.

Section Generic.
Context {A : Type} (key : A -> Q).

(** The rows in descending order of [key]; a row stays behind every row of
    equal key that came before it ([keep='first']). *)
Fixpoint insert_desc (x : A) (l : list A) : list A :=
  match l with
  | [] => [x]
  | y :: r => if Salary.Qgtb (key y) (key x) then y :: insert_desc x r
              else x :: l
  end.

Fixpoint sort_desc (l : list A) : list A :=
  match l with
  | [] => []
  | x :: r => insert_desc x (sort_desc r)
  end.

Definition nlargest (n : nat) (l : list A) : list A :=
  firstn n (sort_desc l).

(** Rows with their position in the input. *)
Definition indexed (l : list A) : list (nat * A) :=
  combine (seq 0 (List.length l)) l.

(** [a] ranks before [b]: a larger key, or an equal key and an earlier
    position. *)
Definition ranks_before (a b : nat * A) : Prop :=
  (key (snd b) < key (snd a))%Q
  \/ ((key (snd a) == key (snd b))%Q /\ (fst a < fst b)%nat).

Definition descending (l : list A) : Prop :=
  StronglySorted (fun a b => (key b <= key a)%Q) l.

End Generic.

(** Lines 132-137: the ten largest rates, or the notice that there is no
    data ([None]). *)
Definition outliers_df (df : list CanonicalRecord)
  : option (list CanonicalRecord) :=
  match df with
  | [] => None
  | _ => Some (nlargest hourly_rate 10 df)
  end.

(** The key of a row that carries its position. *)
Definition ikey {A : Type} (key : A -> Q) (a : nat * A) : Q := key (snd a).

(** Three records, the first and the last with the same rate. *)
Definition job (name pay : string) (rate : Q) : CanonicalRecord :=
  mkCanonical (VStr name) (VStr "Acme") VNaN (VStr pay) [] VNone
    rate "Hourly" "Unknown" "Unknown".

Definition sample_jobs : list CanonicalRecord :=
  [ job "Packer" "$20/hr" 20; job "Lead" "$31/hr" 31;
    job "Picker" "$20 an hour" 20 ].

End TopN.

(** ** Further string helpers *)

Module Text.
Import PyStr.

(** The characters of [s] that satisfy [p], in order. *)
Fixpoint keep_chars (p : ascii -> bool) (s : string) : string :=
  match s with
  | EmptyString => EmptyString
  | String c r => if p c then String c (keep_chars p r) else keep_chars p r
  end.

(** The texts of a list written one after the other. *)
Fixpoint flatten (l : list string) : string :=
  match l with
  | [] => EmptyString
  | x :: r => (x ++ flatten r)%string
  end.

(** A cell that holds a text or nothing. *)
Definition text_or_missing (v : PyVal) : bool :=
  match v with
  | VNone | VNaN | VStr _ => true
  | _ => false
  end.

(** The part of an open match the scanner has read so far. *)
Definition pending (st : Regex.scan_state) : string :=
  match st with
  | Regex.Outside => EmptyString
  | Regex.InInt acc | Regex.InFrac acc => acc
  end.

End Text.

(** ** [display_sidebar] *)

Module Sidebar.
Import Filter.

(** [Series.unique()]: the values in the order of their first occurrence. *)
Fixpoint unique (l : list string) : list string :=
  match l with
  | [] => []
  | x :: r => x :: filter (fun y => negb (String.eqb y x)) (unique r)
  end.

(** [sorted(...)] on strings: ascending by code point. *)
Fixpoint insert_str (x : string) (l : list string) : list string :=
  match l with
  | [] => [x]
  | y :: r => if String.leb x y then x :: l else y :: insert_str x r
  end.

Fixpoint sorted (l : list string) : list string :=
  match l with
  | [] => []
  | x :: r => insert_str x (sorted r)
  end.

(** Lines 99-100. *)
Definition all_cities (df : list CanonicalRecord) : list string :=
  sorted (unique (map city df)).

Definition city_options (df : list CanonicalRecord) : list string :=
  ALL_CITIES :: all_cities df.

(** Line 103. *)
Definition pay_period_options (df : list CanonicalRecord) : list string :=
  sorted (unique (map pay_period df)).

Definition Qmin2 (a b : Q) : Q := if Qle_bool a b then a else b.
Definition Qmax2 (a b : Q) : Q := if Qle_bool a b then b else a.

(** [Series.min()] and [Series.max()]; on an empty column they are NaN
    ([None]). *)
Definition series_min (xs : list Q) : option Q :=
  match xs with
  | [] => None
  | x :: r => Some (fold_left Qmin2 r x)
  end.

Definition series_max (xs : list Q) : option Q :=
  match xs with
  | [] => None
  | x :: r => Some (fold_left Qmax2 r x)
  end.

(** What [display_sidebar] returns before the user touches a widget: the
    select box stands on its first option, the multi-select on its default
    (all options), the text input is empty and the slider spans its whole
    range.  The slider is given the least and the greatest rate as its
    bounds; the model covers the datasets where the least rate is below the
    greatest and is [None] on the others (no rows, or one rate only), where
    what the slider does with such bounds is left to Streamlit. *)
Definition initial_filters (df : list CanonicalRecord)
  : option FilterCriteria :=
  match series_min (map hourly_rate df), series_max (map hourly_rate df) with
  | Some lo, Some hi =>
      if Salary.Qgtb hi lo
      then Some (mkCriteria ALL_CITIES (pay_period_options df) EmptyString
                            (lo, hi))
      else None
  | _, _ => None
  end.

(** Each string is at most the next one. *)
Definition ascending (l : list string) : Prop :=
  Sorted (fun a b => String.leb a b = true) l.

(** The same state after one city has been picked in the select box. *)
Definition with_city (f : FilterCriteria) (selected_city : string)
  : FilterCriteria :=
  mkCriteria selected_city (f_pay_periods f) (f_keyword f) (f_salary_range f).

End Sidebar.

(** ** The table of [display_keyword_analysis_tab] *)

Module KeywordTab.
Import Filter.

Definition KEYWORDS : list string :=
  [ "Operator"; "Forklift"; "Lead"; "Supervisor"; "Manager"; "Associate";
    "Technician"; "Driver"; "Picker"; "Packer" ].

(** Line 159 without the mask's missing values: the rows whose title matches
    the keyword, as a pattern, in any case. *)
Definition keyword_subset (keyword : string) (df : list CanonicalRecord)
  : option (list CanonicalRecord) :=
  match compile keyword with
  | None => None
  | Some p => Some (filter (fun c => str_contains p (c_title c)) df)
  end.

(** Lines 158-162: one entry (keyword, number of rows, mean rate) for each
    keyword with at least one row, in the order of the keywords. *)
Fixpoint collect (keywords : list string) (df : list CanonicalRecord)
  : option (list (string * nat * Q)) :=
  match keywords with
  | [] => Some []
  | keyword :: r =>
      match keyword_subset keyword df, collect r df with
      | Some subset, Some rest =>
          Some match subset with
               | [] => rest
               | _ :: _ =>
                   (keyword, List.length subset,
                    Salary.mean (map hourly_rate subset)) :: rest
               end
      | _, _ => None
      end
  end.

Definition is_text (v : PyVal) : bool :=
  match v with
  | VStr _ => true
  | _ => false
  end.

(** [keyword_data] of lines 157-162.  Line 159 passes no [na] to
    [str.contains], so what a title that is not text does to the mask is
    left to pandas; the model covers the datasets whose titles are all text
    and is [None] on the others.  The rows are later reordered by
    [sort_values], whose order among equal counts is not fixed; the list
    modelled is the one before that call. *)
Definition keyword_data (df : list CanonicalRecord)
  : option (list (string * nat * Q)) :=
  match df with
  | [] => Some []
  | _ :: _ =>
      if forallb (fun c => is_text (c_title c)) df then collect KEYWORDS df
      else None
  end.

End KeywordTab.

(** ** Lines 208-215 of [main] *)

Module Main.
Import Normalizer.

Inductive Stage : Type :=
| NoRawData
| NoValidRecords
| Ready (df : list CanonicalRecord)
| Crashed (e : PyErr).

(** [DataFrame.empty]: an axis of length 0. *)
Definition frame_empty (df : DataFrame) : bool :=
  match rows df, columns df with
  | [], _ => true
  | _, [] => true
  | _ :: _, _ :: _ => false
  end.

Definition prepare (raw_df : DataFrame) : Stage :=
  if frame_empty raw_df then NoRawData
  else match clean_and_process_data raw_df with
       | Ok [] => NoValidRecords
       | Ok df => Ready df
       | Raise e => Crashed e
       end.

End Main.

(** * Properties *)

(** [H : In x [a; b; ...]]: one goal per element, each closed by [tac]. *)
Ltac each_member H tac :=
  simpl in H;
  repeat (destruct H as [H|H]; [tac|]);
  contradiction.

(** ** Strings *)

Module PyStrFacts.
Import PyStr.

Lemma prefix_app (n h : string) :
  String.prefix n h = true <-> exists post, h = (n ++ post)%string.
Proof.
  revert h; induction n as [|a n IH]; intros h; simpl.
  - destruct h; simpl; split; eauto.
  - destruct h as [|b h]; simpl.
    + split; [discriminate | intros [post E]; discriminate].
    + destruct (ascii_dec a b) as [->|Hne].
      * rewrite IH. split; intros [post E]; exists post; congruence.
      * split; [discriminate | intros [post E]; congruence].
Qed.

Lemma contains_occurs (n h : string) : contains n h = true <-> occurs n h.
Proof.
  unfold occurs. induction h as [|c h IH].
  - cbn [contains]. rewrite orb_false_r, prefix_app. split.
    + intros [post E]. exists EmptyString, post. exact E.
    + intros [pre [post E]]. destruct pre; simpl in E.
      * eauto.
      * discriminate.
  - cbn [contains]. rewrite orb_true_iff, IH, prefix_app. split.
    + intros [[post E] | [pre [post E]]].
      * exists EmptyString, post. exact E.
      * exists (String c pre), post. simpl. congruence.
    + intros [pre [post E]]. destruct pre as [|c' pre]; simpl in E.
      * left. eauto.
      * right. exists pre, post. congruence.
Qed.

Lemma contains_false (n h : string) : contains n h = false <-> ~ occurs n h.
Proof.
  rewrite <- contains_occurs. destruct (contains n h); split; congruence.
Qed.

Lemma is_digit_lower (c : ascii) : is_digit (lower_char c) = is_digit c.
Proof.
  destruct c as [[] [] [] [] [] [] [] []]; reflexivity.
Qed.

Lemma no_digits_lower (s : string) : no_digits s -> no_digits (lower s).
Proof.
  unfold no_digits. induction s as [|c s IH]; simpl; auto.
  rewrite is_digit_lower. intros H. apply andb_true_iff in H as [H1 H2].
  rewrite H1. simpl. auto.
Qed.

Lemma no_digits_remove (x : ascii) (s : string) :
  no_digits s -> no_digits (remove_char x s).
Proof.
  unfold no_digits. induction s as [|c s IH]; simpl; auto.
  intros H. apply andb_true_iff in H as [H1 H2].
  destruct (Ascii.eqb c x); simpl; auto. rewrite H1. simpl. auto.
Qed.

End PyStrFacts.

(** ** The number pattern *)

Module RegexFacts.
Import PyStr Regex PyStrFacts.

Lemma sapp_nil_r (s : string) : (s ++ "")%string = s.
Proof. induction s; simpl; congruence. Qed.

Lemma sapp_assoc (a b c : string) :
  ((a ++ b) ++ c)%string = (a ++ (b ++ c))%string.
Proof. induction a; simpl; congruence. Qed.

Lemma snoc_app (acc : string) (c : ascii) (d : string) :
  (snoc acc c ++ d)%string = (acc ++ String c d)%string.
Proof. unfold snoc. rewrite sapp_assoc. reflexivity. Qed.

Lemma digits_app (a b : string) : digits a -> digits b -> digits (a ++ b).
Proof.
  unfold digits. induction a as [|c a IH]; simpl; auto.
  intros H Hb. apply andb_true_iff in H as [H1 H2]. rewrite H1. simpl. auto.
Qed.

(** A text without digits has no match. *)
Lemma findall_no_digits (s : string) : no_digits s -> findall s = [].
Proof.
  unfold findall, no_digits. induction s as [|c s IH]; simpl; auto.
  intros H. apply andb_true_iff in H as [H1 H2].
  apply negb_true_iff in H1. rewrite H1. auto.
Qed.

(** A character that is not a digit starts no match. *)
Lemma findall_skip (c : ascii) (s : string) :
  is_digit c = false -> findall (String c s) = findall s.
Proof. unfold findall. simpl. intros ->. reflexivity. Qed.

Lemma scan_frac (s acc : string) :
  scan (InFrac acc) s =
    (acc ++ fst (take_digits s))%string :: findall (snd (take_digits s)).
Proof.
  revert acc. induction s as [|c s IH]; intros acc.
  - simpl. rewrite sapp_nil_r. reflexivity.
  - cbn [scan take_digits]. destruct (is_digit c) eqn:Hc.
    + rewrite IH. destruct (take_digits s) as [d r]. simpl.
      rewrite snoc_app. reflexivity.
    + cbn [fst snd]. rewrite sapp_nil_r, findall_skip by assumption.
      reflexivity.
Qed.

Lemma scan_int (s acc : string) :
  scan (InInt acc) s =
    (acc ++ fst (match_number s))%string :: findall (snd (match_number s)).
Proof.
  revert acc. induction s as [|c s IH]; intros acc.
  - simpl. rewrite sapp_nil_r. reflexivity.
  - cbn [scan]. destruct (is_digit c) eqn:Hc.
    + rewrite IH. unfold match_number. cbn [take_digits]. rewrite Hc.
      destruct (take_digits s) as [d1 r1].
      destruct r1 as [|c1 r1]; cbn [fst snd].
      * rewrite snoc_app. reflexivity.
      * destruct (Ascii.eqb_spec c1 ".") as [->|Hne].
        -- destruct (take_digits r1) as [d2 r3]. cbn [fst snd].
           rewrite snoc_app. reflexivity.
        -- assert (E : forall (X : Type) (a b : X),
                     match c1 with "."%char => a | _ => b end = b).
           { intros X a b.
             destruct c1 as [[] [] [] [] [] [] [] []]; try reflexivity.
             contradiction Hne. reflexivity. }
           rewrite !E. cbn [fst snd]. rewrite snoc_app. reflexivity.
    + unfold match_number. cbn [take_digits]. rewrite Hc.
      destruct (Ascii.eqb_spec c ".") as [->|Hne].
      * rewrite scan_frac. destruct (take_digits s) as [d2 r3]. cbn [fst snd].
        rewrite snoc_app. reflexivity.
      * assert (E : forall (X : Type) (a b : X),
                  match c with "."%char => a | _ => b end = b).
        { intros X a b.
          destruct c as [[] [] [] [] [] [] [] []]; try reflexivity.
          contradiction Hne. reflexivity. }
        rewrite !E. cbn [fst snd].
        rewrite sapp_nil_r, findall_skip by assumption. reflexivity.
Qed.

(** At a digit the match is the longest text of the pattern's form, and the
    search resumes behind it. *)
Lemma findall_match (c : ascii) (s : string) :
  is_digit c = true ->
  findall (String c s) =
    fst (match_number (String c s))
      :: findall (snd (match_number (String c s))).
Proof.
  intros Hc. unfold findall at 1. cbn [scan]. rewrite Hc, scan_int.
  unfold match_number. cbn [take_digits]. rewrite Hc.
  destruct (take_digits s) as [d1 r1].
  destruct r1 as [|c1 r1]; cbn [fst snd]; try reflexivity.
  destruct c1 as [[] [] [] [] [] [] [] []]; try reflexivity.
  destruct (take_digits r1) as [d2 r3]. reflexivity.
Qed.

Lemma take_digits_digits (s : string) : digits (fst (take_digits s)).
Proof.
  unfold digits. induction s as [|c s IH]; simpl; auto.
  destruct (is_digit c) eqn:Hc; simpl; auto.
  destruct (take_digits s). simpl in *. rewrite Hc. auto.
Qed.

Lemma snoc_not_empty (acc : string) (c : ascii) : snoc acc c <> EmptyString.
Proof. destruct acc; discriminate. Qed.

Lemma digits_snoc (acc : string) (c : ascii) :
  digits acc -> is_digit c = true -> digits (snoc acc c).
Proof.
  intros Ha Hc. apply digits_app; auto. unfold digits. simpl. rewrite Hc. auto.
Qed.

(** Every match has the form [float] accepts. *)
Lemma scan_shape (s : string) :
  Forall number_shaped (scan Outside s)
  /\ (forall acc, acc <> EmptyString -> digits acc ->
        Forall number_shaped (scan (InInt acc) s))
  /\ (forall d1 d2, d1 <> EmptyString -> digits d1 -> digits d2 ->
        Forall number_shaped (scan (InFrac (d1 ++ String "." d2)) s)).
Proof.
  induction s as [|c s [IHo [IHi IHf]]].
  - repeat split; simpl; intros; auto; constructor; auto.
    + exists acc. auto.
    + exists d1. repeat split; auto. right. exists d2. auto.
  - repeat split; cbn [scan]; intros.
    + destruct (is_digit c) eqn:Hc; auto.
      apply IHi; [discriminate | unfold digits; simpl; rewrite Hc; auto].
    + destruct (is_digit c) eqn:Hc.
      * apply IHi; [apply snoc_not_empty | apply digits_snoc; auto].
      * destruct (Ascii.eqb_spec c ".") as [->|Hne].
        -- apply (IHf acc EmptyString); auto. reflexivity.
        -- constructor; auto. exists acc. auto.
    + destruct (is_digit c) eqn:Hc.
      * assert (E : snoc (d1 ++ String "."%char d2) c
                    = (d1 ++ String "."%char (snoc d2 c))%string).
        { unfold snoc. rewrite sapp_assoc. reflexivity. }
        rewrite E. apply IHf; auto using digits_snoc.
      * constructor; auto. exists d1. repeat split; auto.
        right. exists d2. auto.
Qed.

Lemma findall_shape (s : string) : Forall number_shaped (findall s).
Proof. apply scan_shape. Qed.

End RegexFacts.

(** ** The salary parser *)

Module SalaryFacts.
Import PyStr Regex Salary PyStrFacts RegexFacts.

Local Open Scope Q_scope.

Lemma Qgtb_lt (a b : Q) : Qgtb a b = true <-> b < a.
Proof.
  unfold Qgtb. rewrite negb_true_iff. split.
  - intros H. apply Qnot_le_lt. intros Hle.
    apply Qle_bool_iff in Hle. congruence.
  - intros H. destruct (Qle_bool a b) eqn:E; auto.
    apply Qle_bool_iff in E. apply Qlt_not_le in H. contradiction.
Qed.

Lemma Qgtb_le (a b : Q) : Qgtb a b = false <-> a <= b.
Proof.
  unfold Qgtb. rewrite negb_false_iff. apply Qle_bool_iff.
Qed.

Lemma float_of_nonneg (t : string) : 0 <= float_of t.
Proof. unfold float_of, Qle. simpl. lia. Qed.

Lemma fold_left_Qplus (xs : list Q) (a : Q) :
  fold_left Qplus xs a == a + fold_right Qplus 0 xs.
Proof.
  revert a. induction xs as [|x xs IH]; intros a; simpl.
  - lra.
  - rewrite IH. lra.
Qed.

Lemma sum_fold_right (xs : list Q) : sum xs == fold_right Qplus 0 xs.
Proof. unfold sum. rewrite fold_left_Qplus. lra. Qed.

Lemma fold_right_nonneg (xs : list Q) :
  Forall (Qle 0) xs -> 0 <= fold_right Qplus 0 xs.
Proof.
  induction 1; simpl; [lra|]. lra.
Qed.

Lemma length_pos (A : Type) (xs : list A) :
  xs <> [] -> 0 < inject_Z (Z.of_nat (List.length xs)).
Proof.
  destruct xs; [congruence|]. intros _.
  unfold Qlt. simpl. lia.
Qed.

Lemma mean_nonneg (xs : list Q) :
  xs <> [] -> Forall (Qle 0) xs -> 0 <= mean xs.
Proof.
  intros Hne Hall. unfold mean.
  apply Qle_shift_div_l; [apply length_pos; assumption|].
  rewrite sum_fold_right. apply fold_right_nonneg in Hall. lra.
Qed.

Lemma avg_salary_nonneg (s : string) :
  numbers_str s <> [] -> 0 <= avg_salary s.
Proof.
  intros Hne. unfold avg_salary. apply mean_nonneg.
  - destruct (numbers_str s); [congruence | discriminate].
  - apply Forall_forall. intros q Hq. apply in_map_iff in Hq as [t [<- _]].
    apply float_of_nonneg.
Qed.

Lemma div_nonneg (a c : Q) : 0 <= a -> 0 < c -> 0 <= a / c.
Proof. intros Ha Hc. apply Qle_shift_div_l; [assumption | lra]. Qed.

(** C1.  When at least one number is matched, the period is decided in the
    order year, month, week, magnitude, hourly, on the lower-cased,
    comma-free text [s_lower]: the first test that succeeds fixes the label
    and the divisor applied to the mean [avg_salary]. *)
Theorem parse_priority_order (s : string) (Hnum : numbers_str s <> []) :
  let t := s_lower s in
  let avg := avg_salary s in
  (occurs "year" t ->
     parse_salary_intelligently (VStr s) = mkInfo (Some (avg / 2080)) "Annual")
  /\ (~ occurs "year" t -> occurs "month" t ->
     parse_salary_intelligently (VStr s)
       = mkInfo (Some (avg / (17333 # 100))) "Monthly")
  /\ (~ occurs "year" t -> ~ occurs "month" t -> occurs "week" t ->
     parse_salary_intelligently (VStr s) = mkInfo (Some (avg / 40)) "Weekly")
  /\ (~ occurs "year" t -> ~ occurs "month" t -> ~ occurs "week" t ->
     2000 < avg ->
     parse_salary_intelligently (VStr s)
       = mkInfo (Some (avg / 2080)) "Annual (Inferred)")
  /\ (~ occurs "year" t -> ~ occurs "month" t -> ~ occurs "week" t ->
     avg <= 2000 ->
     parse_salary_intelligently (VStr s) = mkInfo (Some avg) "Hourly").
Proof.
  intros t avg. unfold parse_salary_intelligently. fold t. fold avg.
  destruct (numbers_str s) as [|n ns]; [congruence|].
  repeat split; intros;
    repeat match goal with
    | H : occurs _ _ |- _ => apply contains_occurs in H; rewrite H
    | H : ~ occurs _ _ |- _ => apply contains_false in H; rewrite H
    | H : _ < _ |- _ => apply Qgtb_lt in H; rewrite H
    | H : _ <= _ |- _ => apply Qgtb_le in H; rewrite H
    end; reflexivity.
Qed.

Lemma parse_priority_order_witness :
  (numbers_str "$3,000 a week, paid monthly" <> []
   /\ occurs "month" (s_lower "$3,000 a week, paid monthly")
   /\ occurs "week" (s_lower "$3,000 a week, paid monthly")
   /\ parse_salary_intelligently (VStr "$3,000 a week, paid monthly")
      = mkInfo (Some (avg_salary "$3,000 a week, paid monthly" / (17333 # 100)))
               "Monthly")
  /\ parse_salary_intelligently (VStr "52000")
     = mkInfo (Some (avg_salary "52000" / 2080)) "Annual (Inferred)"
  /\ parse_salary_intelligently (VStr "$15/hr")
     = mkInfo (Some (avg_salary "$15/hr")) "Hourly".
Proof.
  assert (Hnum : numbers_str "$3,000 a week, paid monthly" <> [])
    by (vm_compute; discriminate).
  assert (Hy : ~ occurs "year" (s_lower "$3,000 a week, paid monthly"))
    by (apply contains_false; reflexivity).
  assert (Hm : occurs "month" (s_lower "$3,000 a week, paid monthly"))
    by (apply contains_occurs; reflexivity).
  assert (Hw : occurs "week" (s_lower "$3,000 a week, paid monthly"))
    by (apply contains_occurs; reflexivity).
  split; [|split].
  - split; [exact Hnum|]. split; [exact Hm|]. split; [exact Hw|].
    exact (proj1 (proj2 (parse_priority_order _ Hnum)) Hy Hm).
  - assert (Hn : numbers_str "52000" <> []) by (vm_compute; discriminate).
    apply (proj1 (proj2 (proj2 (proj2 (parse_priority_order _ Hn)))));
      try (apply contains_false; reflexivity).
    vm_compute. reflexivity.
  - assert (Hn : numbers_str "$15/hr" <> []) by (vm_compute; discriminate).
    apply (proj2 (proj2 (proj2 (proj2 (parse_priority_order _ Hn)))));
      try (apply contains_false; reflexivity).
    vm_compute. discriminate.
Defined.

(** C2.  The average is the sum of all matched numbers divided by their
    count, the matches being taken after commas are removed; for
    "$45,000 - $50,000 a year" the matches are 45000 and 50000, the average
    is 47500, the period is "Annual" and the rate is 47500/2080, which lies
    between 22.836 and 22.837.  Three numbers 10, 20 and 60 average to 30,
    which is neither an end nor the middle of the ends. *)
Theorem avg_is_mean_of_all_matches :
  (forall s : string,
     avg_salary s ==
       fold_right Qplus 0 (map float_of (findall (s_lower s)))
       / inject_Z (Z.of_nat (List.length (findall (s_lower s)))))
  /\ s_lower "$45,000 - $50,000 a year" = "$45000 - $50000 a year"%string
  /\ findall (s_lower "$45,000 - $50,000 a year") = ["45000"; "50000"]%string
  /\ map float_of ["45000"; "50000"]%string = [45000; 50000]
  /\ avg_salary "$45,000 - $50,000 a year" == 47500
  /\ avg_salary "$10, $20 or $60 an hour" == 30
  /\ exists r : Q,
       parse_salary_intelligently (VStr "$45,000 - $50,000 a year")
         = mkInfo (Some r) "Annual"
       /\ r == 47500 / 2080
       /\ 22836 # 1000 <= r /\ r < 22837 # 1000.
Proof.
  split.
  - intros s. unfold avg_salary, mean, numbers_str.
    rewrite sum_fold_right, length_map. reflexivity.
  - do 3 (split; [reflexivity|]).
    do 2 (split; [vm_compute; reflexivity|]).
    exists (avg_salary "$45,000 - $50,000 a year" / 2080).
    split; [reflexivity|].
    split; [vm_compute; reflexivity|].
    split; vm_compute; congruence.
Qed.

(** C5.  An input that is not a string, the empty string, and a string
    without digits all give a null rate and the period "Unknown". *)
Theorem parse_unknown (v : PyVal)
  (H : forall s : string, v = VStr s -> s = EmptyString \/ no_digits s) :
  parse_salary_intelligently v = mkInfo None "Unknown".
Proof.
  destruct v as [| |s|q|l]; try reflexivity.
  assert (Hs : no_digits s).
  { destruct (H s eq_refl) as [->|Hd]; [reflexivity | assumption]. }
  unfold parse_salary_intelligently, numbers_str, s_lower.
  rewrite findall_no_digits; [reflexivity|].
  apply no_digits_remove, no_digits_lower, Hs.
Qed.

Lemma parse_unknown_witness :
  parse_salary_intelligently (VStr "Competitive pay, DOE")
    = mkInfo None "Unknown"
  /\ parse_salary_intelligently (VStr "") = mkInfo None "Unknown"
  /\ parse_salary_intelligently (VNum 52000) = mkInfo None "Unknown"
  /\ parse_salary_intelligently VNaN = mkInfo None "Unknown".
Proof.
  split; [|split; [|split]].
  - apply (parse_unknown (VStr "Competitive pay, DOE")).
    intros s E. injection E as <-. right. reflexivity.
  - apply (parse_unknown (VStr "")).
    intros s E. injection E as <-. left. reflexivity.
  - apply (parse_unknown (VNum 52000)). intros s E. discriminate E.
  - apply (parse_unknown VNaN). intros s E. discriminate E.
Defined.

(** C10.  The rate returned by the parser is null or non-negative: the
    pattern has no sign, so "-5 an hour" gives the rate 5. *)
Theorem parse_rate_nonneg :
  (forall v : PyVal,
     match hourly_rate (parse_salary_intelligently v) with
     | None => True
     | Some q => 0 <= q
     end)
  /\ (forall s : string,
        Forall (fun t => number_shaped t /\ 0 <= float_of t) (numbers_str s))
  /\ findall (s_lower "-5 an hour") = ["5"%string]
  /\ parse_salary_intelligently (VStr "-5 an hour") = mkInfo (Some 5) "Hourly".
Proof.
  split; [|split; [|split; reflexivity]].
  2: { intros s. pose proof (findall_shape (s_lower s)) as F.
       apply (Forall_impl _ (P := number_shaped)); [|exact F].
       intros t Ht. split; [exact Ht | apply float_of_nonneg]. }
  intros [| |s|q|l]; simpl; auto.
  pose proof (avg_salary_nonneg s) as Havg.
  destruct (numbers_str s) as [|n ns]; simpl; auto.
  assert (Ha : 0 <= avg_salary s) by (apply Havg; discriminate).
  destruct (contains "year" (s_lower s)); simpl.
  { apply div_nonneg; [assumption | reflexivity]. }
  destruct (contains "month" (s_lower s)); simpl.
  { apply div_nonneg; [assumption | reflexivity]. }
  destruct (contains "week" (s_lower s)); simpl.
  { apply div_nonneg; [assumption | reflexivity]. }
  destruct (Qgtb (avg_salary s) 2000); simpl.
  { apply div_nonneg; [assumption | reflexivity]. }
  assumption.
Qed.

End SalaryFacts.

(** ** City names *)

Module CityFacts.
Import PyStr City PyStrFacts RegexFacts.

Lemma before_split (x : string) :
  exists rest : string,
    x = (before "," x ++ rest)%string
    /\ (rest = EmptyString \/ first_char rest = Some ","%char)
    /\ comma_free (before "," x).
Proof.
  unfold comma_free. induction x as [|c x [rest [E [Hr Hc]]]].
  - exists EmptyString. simpl. auto.
  - cbn [before]. destruct (Ascii.eqb_spec c ",") as [->|Hne].
    + exists (String "," x). simpl. auto.
    + exists rest. simpl. rewrite <- E.
      apply Ascii.eqb_neq in Hne. rewrite Hne. simpl. auto.
Qed.

Lemma lstrip_split (s : string) :
  exists lead : string,
    s = (lead ++ lstrip s)%string /\ spaces lead
    /\ not_space (first_char (lstrip s)).
Proof.
  unfold spaces. induction s as [|c s [lead [E [Hl Hf]]]].
  - exists EmptyString. simpl. auto.
  - cbn [lstrip]. destruct (is_space c) eqn:Hc.
    + exists (String c lead). simpl. rewrite Hc, <- E. auto.
    + exists EmptyString. simpl. auto.
Qed.

Lemma last_char_cons (c : ascii) (r : string) :
  r <> EmptyString -> last_char (String c r) = last_char r.
Proof. destruct r; [congruence | reflexivity]. Qed.

Lemma rstrip_split (s : string) :
  exists trail : string,
    s = (rstrip s ++ trail)%string /\ spaces trail
    /\ not_space (last_char (rstrip s))
    /\ first_char (rstrip s) = match rstrip s with
                               | EmptyString => None
                               | String _ _ => first_char s
                               end.
Proof.
  unfold spaces. induction s as [|c s [trail [E [Ht [Hl Hf]]]]].
  - exists EmptyString. simpl. auto.
  - cbn [rstrip]. destruct (rstrip s) as [|a r'] eqn:Hr.
    + destruct (is_space c) eqn:Hc.
      * exists (String c trail). simpl in *. subst trail. rewrite Hc, Ht. auto.
      * exists trail. simpl in *. subst trail. auto.
    + exists trail. rewrite E at 1. cbn [append last_char first_char].
      repeat split; auto.
Qed.

Lemma strip_split (s : string) :
  exists lead trail : string,
    s = (lead ++ strip s ++ trail)%string /\ spaces lead /\ spaces trail
    /\ not_space (first_char (strip s)) /\ not_space (last_char (strip s)).
Proof.
  unfold strip.
  destruct (lstrip_split s) as [lead [E1 [Hl Hf]]].
  destruct (rstrip_split (lstrip s)) as [trail [E2 [Ht [Hla Hfi]]]].
  exists lead, trail. repeat split; auto.
  - rewrite <- E2. exact E1.
  - rewrite Hfi. destruct (rstrip (lstrip s)); simpl; auto.
Qed.

Lemma map_keys_lower :
  forall k v, In (k, v) CITY_NORMALIZATION_MAP -> lower k = k.
Proof.
  intros k v H. each_member H ltac:(injection H as <- <-; reflexivity).
Qed.

Lemma dict_get_miss (d : list (string * string)) (k default : string) :
  (forall k' v, In (k', v) d -> k <> k') -> dict_get d k default = default.
Proof.
  induction d as [|[k' v] d IH]; simpl; auto.
  intros H. destruct (String.eqb_spec k' k) as [->|Hne].
  - exfalso. apply (H k v); auto.
  - apply IH. intros k'' v' Hin. apply (H k'' v'). auto.
Qed.

(** C7.  The city of a location text is the part before the first comma
    without the white space around it; a null or missing location gives
    "Unknown".  The alias lookup ignores case, maps
    "South Brunswick Township" to "South Brunswick", and returns a name
    without an entry as it is. *)
Theorem city_extraction_and_lookup :
  (forall x : string,
     exists seg rest lead trail name : string,
       extract_city (VStr x) = Ok name
       /\ x = (seg ++ rest)%string
       /\ (rest = EmptyString \/ first_char rest = Some ","%char)
       /\ comma_free seg
       /\ seg = (lead ++ name ++ trail)%string
       /\ spaces lead /\ spaces trail
       /\ not_space (first_char name) /\ not_space (last_char name))
  /\ extract_city VNone = Ok "Unknown"%string
  /\ extract_city VNaN = Ok "Unknown"%string
  /\ (forall name k v : string,
        In (k, v) CITY_NORMALIZATION_MAP -> lower name = lower k ->
        canonicalize name = v)
  /\ (forall name : string,
        (forall k v,
           In (k, v) CITY_NORMALIZATION_MAP -> lower name <> lower k) ->
        canonicalize name = name)
  /\ extract_city (VStr "South Brunswick Township, NJ")
       = Ok "South Brunswick Township"%string
  /\ canonicalize "South Brunswick Township" = "South Brunswick"%string.
Proof.
  split; [|split; [reflexivity | split; [reflexivity | split; [|split]]]].
  - intros x.
    destruct (before_split x) as [rest [E [Hr Hc]]].
    destruct (strip_split (before "," x))
      as [lead [trail [Es [Hl [Ht [Hf Hla]]]]]].
    exists (before "," x), rest, lead, trail, (strip (before "," x)).
    repeat split; auto.
  - intros name k v Hin Hlow. unfold canonicalize.
    rewrite Hlow, (map_keys_lower k v Hin).
    each_member Hin ltac:(injection Hin as <- <-; reflexivity).
  - intros name Hmiss. unfold canonicalize. apply dict_get_miss.
    intros k v Hin E. apply (Hmiss k v Hin).
    rewrite (map_keys_lower k v Hin). exact E.
  - split; reflexivity.
Qed.

Lemma city_extraction_and_lookup_witness :
  canonicalize "EDISON Township" = "Edison"%string
  /\ canonicalize "Piscataway" = "Piscataway"%string.
Proof.
  destruct city_extraction_and_lookup as [_ [_ [_ [Hhit [Hmiss _]]]]].
  split.
  - apply (Hhit "EDISON Township" "edison township" "Edison")%string.
    + simpl. auto.
    + reflexivity.
  - apply (Hmiss "Piscataway"%string).
    intros k v Hin.
    each_member Hin ltac:(injection Hin as <- <-; discriminate).
Defined.

End CityFacts.

(** ** The cleaning pass *)

Module NormalizerFacts.
Import City Normalizer.

Lemma mapM_Forall2 {A B : Type} (f : A -> Exc B) (l : list A) (out : list B) :
  mapM f l = Ok out <-> Forall2 (fun a b => f a = Ok b) l out.
Proof.
  revert out. induction l as [|a l IH]; intros out; simpl.
  - split.
    + intros E. injection E as <-. constructor.
    + intros H. inversion H. reflexivity.
  - split.
    + destruct (f a) as [b|e] eqn:Ea; simpl; [|discriminate].
      destruct (mapM f l) as [bs|e] eqn:El; simpl; [|discriminate].
      intros E. injection E as <-. constructor; auto. apply IH. reflexivity.
    + intros H. inversion H as [|a' b l' bs Ha Hl]; subst.
      rewrite Ha. simpl. apply IH in Hl. rewrite Hl. reflexivity.
Qed.

(** The rows kept by lines 71-72, with their rate and period. *)
Lemma kept_rows (df : DataFrame) :
  Forall2 (fun r k => k = (r, snd (fst k), snd k)
                      /\ Salary.parse_salary_intelligently (salary r)
                         = Salary.mkInfo (Some (snd (fst k))) (snd k)
                      /\ (0 < snd (fst k))%Q)
    (filter (usable df) (rows df))
    (filter_map keep_row (salary_data df)).
Proof.
  unfold salary_data, usable.
  destruct (has_column df "salary"); induction (rows df) as [|r l IH];
    simpl; try constructor.
  - unfold keep_row at 1. simpl.
    destruct (Salary.parse_salary_intelligently (salary r)) as [[q|] p] eqn:E;
      simpl.
    + destruct (Salary.Qgtb q 0) eqn:Hq; [|exact IH].
      constructor; [|exact IH]. simpl. rewrite E.
      apply SalaryFacts.Qgtb_lt in Hq. auto.
    + exact IH.
  - exact IH.
Qed.

Lemma clean_ok_kept (df : DataFrame) (out : list CanonicalRecord) :
  clean_and_process_data df = Ok out ->
  mapM (finish_row (has_column df "benefits"))
       (filter_map keep_row (salary_data df)) = Ok out.
Proof.
  unfold clean_and_process_data, salary_data.
  destruct (rows df) as [|r rs].
  - destruct (has_column df "salary"); simpl; [|auto].
    destruct (has_column df "hourly_rate"); simpl; [auto | discriminate].
  - destruct (has_column df "salary" && has_column df "hourly_rate");
      [discriminate|].
    destruct (filter_map keep_row _) as [|k ks].
    + intros E. exact E.
    + destruct (has_column df "location"); [auto | discriminate].
Qed.

Lemma finish_row_ok (hb : bool) (r : RawRecord) (q : Q) (p : string)
      (c : CanonicalRecord) :
  finish_row hb (r, q, p) = Ok c ->
  c = mkCanonical (title r) (company r) (location r) (salary r)
        (coerce_benefits hb (benefits r)) (url r) q p
        (original_city c) (canonicalize (original_city c))
  /\ extract_city (location r) = Ok (original_city c).
Proof.
  unfold finish_row.
  destruct (extract_city (location r)) as [oc|e]; simpl; [|discriminate].
  intros E. injection E as <-. simpl. auto.
Qed.

(** The output, row by row, against the rows that survive. *)
Lemma clean_rows (df : DataFrame) (out : list CanonicalRecord) :
  clean_and_process_data df = Ok out ->
  Forall2 (fun r c => cleaned_from df r c /\ canonical_ok c)
          (filter (usable df) (rows df)) out.
Proof.
  intros H. apply clean_ok_kept, mapM_Forall2 in H.
  pose proof (kept_rows df) as K.
  revert out H.
  induction K as [|r k rs ks [Ek [Hp Hq]] K IH]; intros out H.
  - inversion H. constructor.
  - inversion H as [|k' c ks' cs Hc Hcs]; subst. constructor; [|auto].
    rewrite Ek in Hc. apply finish_row_ok in Hc as [Ec Ho].
    rewrite Ec. unfold cleaned_from, canonical_ok. simpl.
    repeat split; auto.
Qed.

Lemma Forall2_right {A B : Type} (R : A -> B -> Prop) (P : B -> Prop)
      (l : list A) (l' : list B) :
  Forall2 R l l' -> (forall a b, R a b -> P b) -> Forall P l'.
Proof. induction 1; intros HP; constructor; eauto. Qed.

Lemma clean_canonical (df : DataFrame) (out : list CanonicalRecord) :
  clean_and_process_data df = Ok out -> Forall canonical_ok out.
Proof.
  intros H. apply clean_rows in H.
  apply (Forall2_right _ _ _ _ H). intros r c [_ Hc]. exact Hc.
Qed.

(** The call succeeds when the frame has a location column whose cells are
    texts or missing. *)
Lemma clean_total (df : DataFrame) :
  rows df <> [] ->
  has_column df "hourly_rate" = false ->
  has_column df "location" = true ->
  Forall (fun r => match location r with
                   | VNone | VNaN | VStr _ => True
                   | _ => False
                   end) (rows df) ->
  exists out, clean_and_process_data df = Ok out.
Proof.
  intros Hne Hrate Hloc Hrows.
  assert (T : exists out,
             mapM (finish_row (has_column df "benefits"))
                  (filter_map keep_row (salary_data df)) = Ok out).
  { pose proof (kept_rows df) as K.
    assert (F : Forall (fun r => match location r with
                                 | VNone | VNaN | VStr _ => True
                                 | _ => False
                                 end) (filter (usable df) (rows df))).
    { apply Forall_forall. intros r Hr. apply filter_In in Hr as [Hr _].
      revert r Hr. apply Forall_forall. exact Hrows. }
    induction K as [|r k rs ks [Ek _] K IH].
    - exists []. reflexivity.
    - inversion F as [|r' rs' Hr Hrs]; subst.
      destruct (IH Hrs) as [cs Hcs].
      rewrite Ek. cbn [mapM]. unfold finish_row at 1.
      destruct (location r) as [| |x|q|l] eqn:El; try contradiction;
        simpl; rewrite Hcs; simpl; eauto. }
  destruct T as [out T]. unfold clean_and_process_data.
  destruct (rows df) as [|r rs]; [congruence|].
  rewrite Hrate, andb_false_r.
  destruct (filter_map keep_row (salary_data df)) as [|k ks].
  - eauto.
  - rewrite Hloc. eauto.
Qed.

Lemma usable_iff (df : DataFrame) (r : RawRecord) :
  usable df r = true <->
  has_column df "salary" = true
  /\ exists q : Q,
       Salary.hourly_rate (Salary.parse_salary_intelligently (salary r))
         = Some q
       /\ (0 < q)%Q.
Proof.
  unfold usable. rewrite andb_true_iff.
  destruct (Salary.hourly_rate (Salary.parse_salary_intelligently (salary r)))
    as [q|].
  - rewrite SalaryFacts.Qgtb_lt. split.
    + intros [Hc Hq]. eauto.
    + intros [Hc [q' [E Hq]]]. injection E as <-. auto.
  - split.
    + intros [_ F]. discriminate.
    + intros [_ [q [E _]]]. discriminate.
Qed.

(** C3.  Every record of the cleaned dataset has a positive rate; the
    dataset is, in order, the rows whose salary parses to a rate that is not
    null and is above zero, and no other row is represented in it. *)
Theorem canonical_rates_positive (df : DataFrame) (out : list CanonicalRecord)
  (H : clean_and_process_data df = Ok out) :
  Forall (fun c => (0 < hourly_rate c)%Q) out
  /\ Forall2 (fun r c =>
                c_salary c = salary r
                /\ Salary.hourly_rate
                     (Salary.parse_salary_intelligently (salary r))
                   = Some (hourly_rate c))
             (filter (usable df) (rows df)) out
  /\ (forall r : RawRecord,
        usable df r = true <->
        has_column df "salary" = true
        /\ exists q : Q,
             Salary.hourly_rate (Salary.parse_salary_intelligently (salary r))
               = Some q
             /\ (0 < q)%Q).
Proof.
  split; [|split].
  - apply clean_canonical in H.
    apply (Forall_impl _ (P := canonical_ok)); [|exact H].
    intros c [_ [Hq _]]. exact Hq.
  - apply clean_rows in H.
    apply (Forall2_impl
             (R1 := fun r c => cleaned_from df r c /\ canonical_ok c));
      [|exact H].
    intros r c [[_ [_ [_ [Es _]]]] [Hp _]]. split; [exact Es|].
    rewrite <- Es, Hp. reflexivity.
  - intros r. apply usable_iff.
Qed.

Lemma canonical_rates_positive_witness :
  clean_and_process_data sample_frame = Ok sample_clean
  /\ Forall (fun c => (0 < hourly_rate c)%Q) sample_clean.
Proof.
  assert (E : clean_and_process_data sample_frame = Ok sample_clean)
    by reflexivity.
  split; [exact E|].
  exact (proj1 (canonical_rates_positive sample_frame sample_clean E)).
Defined.






Lemma clean_nonempty (df : DataFrame) :
  rows df <> [] ->
  has_column df "salary" && has_column df "hourly_rate" = false ->
  clean_and_process_data df =
    match filter_map keep_row (salary_data df) with
    | [] => Ok []
    | kept =>
        if has_column df "location"
        then mapM (finish_row (has_column df "benefits")) kept
        else Raise (KeyError "location")
    end.
Proof.
  unfold clean_and_process_data, salary_data.
  destruct (rows df); [congruence|]. intros _ ->. reflexivity.
Qed.

(** On a frame with rows, a salary column and a column labelled
    [hourly_rate], line 72 raises. *)
Lemma clean_doubled_label (df : DataFrame) :
  rows df <> [] ->
  has_column df "salary" = true -> has_column df "hourly_rate" = true ->
  clean_and_process_data df = Raise ValueError.
Proof.
  unfold clean_and_process_data.
  destruct (rows df); [congruence|]. intros _ -> ->. reflexivity.
Qed.





End NormalizerFacts.

(** ** The filter *)

Module FilterFacts.
Import PyStr Filter PyStrFacts.

Lemma dot_is_special : is_special "." = true.
Proof. reflexivity. Qed.

Lemma compile_ordinary (kw : string) :
  ordinary kw ->
  compile kw = Some (map Lit (list_ascii_of_string (lower kw))).
Proof.
  unfold ordinary. induction kw as [|c kw IH]; simpl; auto.
  intros H. apply andb_true_iff in H as [Hc Hk].
  rewrite (IH Hk). apply negb_true_iff in Hc.
  destruct (Ascii.eqb_spec c ".") as [->|_]; [discriminate|].
  rewrite Hc. reflexivity.
Qed.

Lemma match_here_prefix (k t : string) :
  match_here (map Lit (list_ascii_of_string k)) t = String.prefix k (lower t).
Proof.
  revert t. induction k as [|a k IH]; intros t; simpl.
  - destruct t; reflexivity.
  - destruct t as [|b t]; simpl; auto.
    rewrite IH. destruct (ascii_dec a (lower_char b)) as [->|Hne].
    + rewrite Ascii.eqb_refl. reflexivity.
    + apply not_eq_sym, Ascii.eqb_neq in Hne. rewrite Hne. reflexivity.
Qed.

Lemma search_contains (k t : string) :
  search (map Lit (list_ascii_of_string k)) t = contains k (lower t).
Proof.
  induction t as [|b t IH].
  - cbn [search contains lower]. rewrite match_here_prefix. reflexivity.
  - cbn [search contains lower]. rewrite match_here_prefix, IH. reflexivity.
Qed.

Lemma filter_filter {A : Type} (p q : A -> bool) (l : list A) :
  filter q (filter p l) = filter (fun a => p a && q a) l.
Proof.
  induction l as [|a l IH]; simpl; auto.
  destruct (p a); simpl; [destruct (q a)|]; rewrite IH; reflexivity.
Qed.

Lemma filter_city (f : FilterCriteria) (df : list CanonicalRecord) :
  (if String.eqb (f_city f) ALL_CITIES then df
   else filter (fun c => String.eqb (city c) (f_city f)) df)
  = filter (city_pass f) df.
Proof.
  unfold city_pass. destruct (String.eqb (f_city f) ALL_CITIES).
  - induction df as [|c df IH]; simpl; congruence.
  - reflexivity.
Qed.

(** For a keyword without pattern characters the filter keeps exactly the
    records that pass the conjunction, in their order. *)
Lemma apply_filters_ordinary (df : list CanonicalRecord) (f : FilterCriteria) :
  ordinary (f_keyword f) ->
  apply_filters df f = Some (filter (passes f) df).
Proof.
  intros Hk. unfold apply_filters. rewrite filter_city, filter_filter.
  destruct (f_keyword f) as [|a kw] eqn:Ek.
  - f_equal. apply filter_ext. intros c. unfold passes. rewrite Ek.
    rewrite andb_true_r. reflexivity.
  - rewrite (compile_ordinary _ Hk), filter_filter. f_equal.
    apply filter_ext. intros c. unfold passes. rewrite Ek. f_equal.
    unfold str_contains, icontains. destruct (c_title c); auto.
    apply search_contains.
Qed.

(** C4.  The keyword is compiled as a pattern, not compared as text: with
    the keyword "." the filter keeps a record titled "Forklift Driver",
    which passes the city, period and range tests but does not contain a
    dot. *)
Theorem keyword_is_a_pattern :
  apply_filters [driver] dot_keyword = Some [driver]
  /\ icontains "." (c_title driver) = false
  /\ passes dot_keyword driver = false
  /\ city_pass dot_keyword driver = true
  /\ range_pass dot_keyword driver = true.
Proof. repeat split. Qed.

End FilterFacts.

(** ** The largest rates *)

Module TopNFacts.
Import TopN.

Section Generic.
Context {A : Type} (key : A -> Q).

Lemma insert_desc_perm (x : A) (l : list A) :
  Permutation (x :: l) (insert_desc key x l).
Proof.
  induction l as [|y r IH]; simpl; auto.
  destruct (Salary.Qgtb (key y) (key x)); auto.
  rewrite perm_swap. constructor. exact IH.
Qed.

Lemma sort_desc_perm (l : list A) : Permutation l (sort_desc key l).
Proof.
  induction l as [|x r IH]; simpl; auto.
  rewrite <- insert_desc_perm. constructor. exact IH.
Qed.

Lemma sort_desc_length (l : list A) :
  List.length (sort_desc key l) = List.length l.
Proof. symmetry. apply Permutation_length, sort_desc_perm. Qed.

Lemma insert_desc_Forall (P : A -> Prop) (x : A) (l : list A) :
  P x -> Forall P l -> Forall P (insert_desc key x l).
Proof.
  intros Hx Hl.
  apply (Permutation_Forall (insert_desc_perm x l)). constructor; assumption.
Qed.

Lemma sort_desc_Forall (P : A -> Prop) (l : list A) :
  Forall P l -> Forall P (sort_desc key l).
Proof. apply Permutation_Forall, sort_desc_perm. Qed.

Lemma insert_desc_descending (x : A) (l : list A) :
  descending key l -> descending key (insert_desc key x l).
Proof.
  unfold descending. induction 1 as [|y r Hr IH Hy]; simpl.
  - repeat constructor.
  - destruct (Salary.Qgtb (key y) (key x)) eqn:E.
    + apply SalaryFacts.Qgtb_lt in E. constructor; [exact IH|].
      apply insert_desc_Forall; [apply Qlt_le_weak; exact E | exact Hy].
    + apply SalaryFacts.Qgtb_le in E. constructor.
      * constructor; assumption.
      * constructor; [exact E|].
        apply (Forall_impl _ (P := fun b => (key b <= key y)%Q)); [|exact Hy].
        intros b Hb. apply (Qle_trans _ (key y)); assumption.
Qed.

Lemma sort_desc_descending (l : list A) : descending key (sort_desc key l).
Proof.
  induction l as [|x r IH]; simpl.
  - constructor.
  - apply insert_desc_descending, IH.
Qed.

Lemma StronglySorted_app {B : Type} (R : B -> B -> Prop) (l1 l2 : list B) :
  StronglySorted R (l1 ++ l2) ->
  StronglySorted R l1
  /\ forall a b, In a l1 -> In b l2 -> R a b.
Proof.
  induction l1 as [|x l1 IH]; simpl; intros H.
  - split; [constructor | contradiction].
  - apply StronglySorted_inv in H as [Hs Hx].
    destruct (IH Hs) as [H1 H2].
    apply Forall_app in Hx as [Hx1 Hx2]. split.
    + constructor; assumption.
    + intros a b [<-|Ha] Hb.
      * rewrite Forall_forall in Hx2. auto.
      * auto.
Qed.

Lemma StronglySorted_firstn {B : Type} (R : B -> B -> Prop) (n : nat)
      (l : list B) :
  StronglySorted R l -> StronglySorted R (firstn n l).
Proof.
  intros H. rewrite <- (firstn_skipn n l) in H.
  apply StronglySorted_app in H. tauto.
Qed.

End Generic.

Section Stability.
Context {A : Type} (key : A -> Q).

Lemma insert_ranked (x : nat * A) (l : list (nat * A)) :
  Forall (fun b => (fst x < fst b)%nat) l ->
  StronglySorted (ranks_before key) l ->
  StronglySorted (ranks_before key) (insert_desc (ikey key) x l).
Proof.
  intros Hx Hl. induction Hl as [|y r Hr IH Hy]; simpl.
  - repeat constructor.
  - apply Forall_inv_tail in Hx as Hxr. apply Forall_inv in Hx as Hxy.
    destruct (Salary.Qgtb (ikey key y) (ikey key x)) eqn:E.
    + apply SalaryFacts.Qgtb_lt in E. constructor; [auto|].
      apply insert_desc_Forall; [left; exact E | exact Hy].
    + apply SalaryFacts.Qgtb_le in E. unfold ikey in E. constructor.
      * constructor; assumption.
      * assert (Hle : Forall (fun b => (key (snd b) <= key (snd x))%Q
                                       /\ (fst x < fst b)%nat) (y :: r)).
        { constructor; [auto|].
          rewrite Forall_forall in *. intros b Hb. split; [|auto].
          destruct (Hy b Hb) as [Hlt|[Heq _]]; lra. }
        apply (Forall_impl _ (P := fun b => (key (snd b) <= key (snd x))%Q
                                           /\ (fst x < fst b)%nat));
          [|exact Hle].
        intros b [Hb Hi]. unfold ranks_before.
        destruct (Qlt_le_dec (key (snd b)) (key (snd x))) as [Hlt|Hge].
        -- left. exact Hlt.
        -- right. split; [lra | exact Hi].
Qed.

Lemma sort_ranked (l : list (nat * A)) :
  StronglySorted lt (map fst l) ->
  StronglySorted (ranks_before key) (sort_desc (ikey key) l).
Proof.
  induction l as [|x r IH]; simpl; intros H.
  - constructor.
  - apply StronglySorted_inv in H as [Hr Hx].
    apply insert_ranked; [|auto].
    apply sort_desc_Forall. rewrite Forall_map in Hx. exact Hx.
Qed.

Lemma insert_desc_map (x : nat * A) (l : list (nat * A)) :
  insert_desc key (snd x) (map snd l) = map snd (insert_desc (ikey key) x l).
Proof.
  induction l as [|y r IH]; simpl; auto.
  unfold ikey at 1 2. destruct (Salary.Qgtb (key (snd y)) (key (snd x))); simpl.
  - rewrite IH. reflexivity.
  - reflexivity.
Qed.

Lemma sort_desc_map (l : list (nat * A)) :
  sort_desc key (map snd l) = map snd (sort_desc (ikey key) l).
Proof.
  induction l as [|x r IH]; simpl; auto.
  rewrite IH. apply insert_desc_map.
Qed.

Lemma combine_seq (l : list A) (k : nat) :
  map snd (combine (seq k (List.length l)) l) = l
  /\ map fst (combine (seq k (List.length l)) l) = seq k (List.length l).
Proof.
  revert k. induction l as [|x r IH]; intros k; simpl; auto.
  destruct (IH (S k)) as [E1 E2]. rewrite E1, E2. auto.
Qed.

Lemma seq_increasing (len k : nat) : StronglySorted lt (seq k len).
Proof.
  revert k. induction len as [|len IH]; intros k; simpl; constructor; auto.
  apply Forall_forall. intros j Hj. apply in_seq in Hj. lia.
Qed.

(** The result of [nlargest], position by position: the first [n] entries of
    the input ranked by larger key, then earlier position. *)
Lemma nlargest_ranked (n : nat) (l : list A) :
  exists top rest : list (nat * A),
    map snd top = nlargest key n l
    /\ Permutation (indexed l) (top ++ rest)
    /\ StronglySorted (ranks_before key) top
    /\ (forall a b, In a top -> In b rest -> ranks_before key a b).
Proof.
  exists (firstn n (sort_desc (ikey key) (indexed l))),
         (skipn n (sort_desc (ikey key) (indexed l))).
  assert (S : StronglySorted (ranks_before key)
                             (sort_desc (ikey key) (indexed l))).
  { apply sort_ranked. unfold indexed.
    rewrite (proj2 (combine_seq l 0)). apply seq_increasing. }
  split; [|split].
  - unfold nlargest. rewrite <- firstn_map, <- sort_desc_map.
    unfold indexed. rewrite (proj1 (combine_seq l 0)). reflexivity.
  - rewrite firstn_skipn. apply sort_desc_perm.
  - rewrite <- (firstn_skipn n (sort_desc (ikey key) (indexed l))) in S.
    apply StronglySorted_app in S. exact S.
Qed.

End Stability.

(** C8.  [nlargest] returns [min n (len df)] records in descending order of
    rate; they are the records that rank first when a larger rate ranks
    before a smaller one and, at equal rates, the earlier row before the
    later one; with at most [n] records it returns all of them. *)
Theorem nlargest_top_rates (n : nat) (df : list CanonicalRecord) :
  List.length (nlargest hourly_rate n df) = Nat.min n (List.length df)
  /\ descending hourly_rate (nlargest hourly_rate n df)
  /\ (exists top rest : list (nat * CanonicalRecord),
        map snd top = nlargest hourly_rate n df
        /\ Permutation (indexed df) (top ++ rest)
        /\ StronglySorted (ranks_before hourly_rate) top
        /\ (forall a b, In a top -> In b rest -> ranks_before hourly_rate a b))
  /\ ((List.length df <= n)%nat -> Permutation df (nlargest hourly_rate n df))
  /\ (df <> [] -> outliers_df df = Some (nlargest hourly_rate 10 df)).
Proof.
  split; [|split; [|split; [|split]]].
  - unfold nlargest. rewrite length_firstn, sort_desc_length. reflexivity.
  - apply StronglySorted_firstn, sort_desc_descending.
  - apply nlargest_ranked.
  - intros Hn. unfold nlargest.
    rewrite firstn_all2 by (rewrite sort_desc_length; exact Hn).
    apply sort_desc_perm.
  - destruct df; [congruence | reflexivity].
Qed.

Lemma nlargest_top_rates_witness :
  nlargest hourly_rate 2 sample_jobs
    = [job "Lead" "$31/hr" 31; job "Packer" "$20/hr" 20]
  /\ (List.length sample_jobs <= 10)%nat
  /\ Permutation sample_jobs (nlargest hourly_rate 10 sample_jobs)
  /\ outliers_df sample_jobs
     = Some [ job "Lead" "$31/hr" 31; job "Packer" "$20/hr" 20;
              job "Picker" "$20 an hour" 20 ].
Proof.
  assert (L : (List.length sample_jobs <= 10)%nat) by (simpl; lia).
  split; [reflexivity|]. split; [exact L|]. split.
  - exact (proj1 (proj2 (proj2 (proj2 (nlargest_top_rates 10 sample_jobs)))) L).
  - rewrite (proj2 (proj2 (proj2 (proj2 (nlargest_top_rates 10 sample_jobs)))));
      [reflexivity | discriminate].
Defined.

End TopNFacts.

(** * Further properties *)

(** ** The number pattern and the parser *)

Module SalaryMore.
Import PyStr Regex Salary Text PyStrFacts RegexFacts SalaryFacts.

Lemma keep_chars_app (p : ascii -> bool) (a b : string) :
  keep_chars p (a ++ b) = (keep_chars p a ++ keep_chars p b)%string.
Proof.
  induction a as [|c a IH]; simpl; auto.
  destruct (p c); simpl; congruence.
Qed.

Lemma occurs_prefix (a b : string) : occurs a (a ++ b).
Proof. exists EmptyString, b. reflexivity. Qed.

Lemma occurs_app_r (m a b : string) : occurs m b -> occurs m (a ++ b).
Proof.
  intros [pre [post E]]. exists (a ++ pre)%string, post.
  rewrite E, sapp_assoc. reflexivity.
Qed.

Lemma scan_digits (s : string) (st : scan_state) :
  keep_chars is_digit (flatten (scan st s))
  = keep_chars is_digit (pending st ++ s).
Proof.
  revert st. induction s as [|c s IH]; intros st.
  - destruct st; simpl; rewrite ?sapp_nil_r; reflexivity.
  - destruct st as [|acc|acc]; cbn [scan pending].
    + destruct (is_digit c) eqn:Hc; rewrite IH; simpl; rewrite Hc; reflexivity.
    + destruct (is_digit c) eqn:Hc;
        [rewrite IH; simpl; rewrite snoc_app; auto|].
      destruct (Ascii.eqb c ".");
        [rewrite IH; simpl; rewrite snoc_app; auto|].
      cbn [flatten]. rewrite !keep_chars_app, IH. simpl. rewrite Hc. auto.
    + destruct (is_digit c) eqn:Hc;
        [rewrite IH; simpl; rewrite snoc_app; auto|].
      cbn [flatten]. rewrite !keep_chars_app, IH. simpl. rewrite Hc. auto.
Qed.

Lemma scan_occurs (s : string) (st : scan_state) :
  Forall (fun m => occurs m (pending st ++ s)) (scan st s).
Proof.
  revert st. induction s as [|c s IH]; intros st.
  - destruct st; simpl; constructor; auto; rewrite sapp_nil_r;
      exists EmptyString, EmptyString; simpl; rewrite sapp_nil_r; reflexivity.
  - assert (Hout : Forall (fun m => occurs m (String c s)) (scan Outside s)).
    { apply (Forall_impl _ (P := fun m => occurs m s)); [|apply (IH Outside)].
      intros m Hm. apply (occurs_app_r m (String c EmptyString) s Hm). }
    destruct st as [|acc|acc]; cbn [scan pending].
    + destruct (is_digit c); [apply (IH (InInt (String c EmptyString)))|].
      exact Hout.
    + destruct (is_digit c);
        [specialize (IH (InInt (snoc acc c))); simpl in IH;
         rewrite snoc_app in IH; exact IH|].
      destruct (Ascii.eqb c ".");
        [specialize (IH (InFrac (snoc acc c))); simpl in IH;
         rewrite snoc_app in IH; exact IH|].
      constructor; [apply occurs_prefix|].
      apply (Forall_impl _ (P := fun m => occurs m (String c s)));
        [|exact Hout].
      intros m Hm. apply occurs_app_r, Hm.
    + destruct (is_digit c);
        [specialize (IH (InFrac (snoc acc c))); simpl in IH;
         rewrite snoc_app in IH; exact IH|].
      constructor; [apply occurs_prefix|].
      apply (Forall_impl _ (P := fun m => occurs m (String c s)));
        [|exact Hout].
      intros m Hm. apply occurs_app_r, Hm.
Qed.

(** X1.  Every match of the number pattern is a piece of the text, and the
    digits of the matches, read in order, are exactly the digits of the
    text: no digit is skipped, doubled or invented. *)
Theorem findall_keeps_the_digits (s : string) :
  Forall (fun m => occurs m s) (findall s)
  /\ keep_chars is_digit (flatten (findall s)) = keep_chars is_digit s.
Proof.
  split.
  - apply (scan_occurs s Outside).
  - apply (scan_digits s Outside).
Qed.

Lemma lower_char_idem (c : ascii) : lower_char (lower_char c) = lower_char c.
Proof. destruct c as [[] [] [] [] [] [] [] []]; reflexivity. Qed.

Lemma lower_char_comma (c : ascii) :
  Ascii.eqb (lower_char c) "," = Ascii.eqb c ",".
Proof. destruct c as [[] [] [] [] [] [] [] []]; reflexivity. Qed.

Lemma lower_idem (s : string) : lower (lower s) = lower s.
Proof.
  induction s as [|c s IH]; simpl; auto. rewrite lower_char_idem, IH. auto.
Qed.

Lemma lower_remove (s : string) :
  lower (remove_char "," s) = remove_char "," (lower s).
Proof.
  induction s as [|c s IH]; simpl; auto. rewrite lower_char_comma.
  destruct (Ascii.eqb c ","); simpl; congruence.
Qed.

Lemma remove_idem (x : ascii) (s : string) :
  remove_char x (remove_char x s) = remove_char x s.
Proof.
  induction s as [|c s IH]; simpl; auto.
  destruct (Ascii.eqb c x) eqn:E; simpl; auto. rewrite E, IH. auto.
Qed.

Lemma parse_by_s_lower (s s' : string) :
  s_lower s = s_lower s' ->
  parse_salary_intelligently (VStr s) = parse_salary_intelligently (VStr s').
Proof.
  intros E. unfold parse_salary_intelligently, avg_salary, numbers_str.
  rewrite E. reflexivity.
Qed.

(** X2.  The parser reads a text the same with or without its commas, and
    two texts that differ only in letter case parse the same. *)
Theorem parse_ignores_commas_and_case :
  (forall s : string,
     parse_salary_intelligently (VStr (remove_char "," s))
       = parse_salary_intelligently (VStr s))
  /\ (forall s s' : string,
        lower s = lower s' ->
        parse_salary_intelligently (VStr s)
          = parse_salary_intelligently (VStr s')).
Proof.
  split.
  - intros s. apply parse_by_s_lower. unfold s_lower.
    rewrite lower_remove, remove_idem. reflexivity.
  - intros s s' E. apply parse_by_s_lower. unfold s_lower.
    rewrite E. reflexivity.
Qed.

Lemma parse_ignores_commas_and_case_witness :
  parse_salary_intelligently (VStr "$40,000 A YEAR")
    = parse_salary_intelligently (VStr "$40,000 a Year").
Proof.
  apply (proj2 parse_ignores_commas_and_case). reflexivity.
Defined.

Local Open Scope Q_scope.

Lemma total_zero (xs : list Q) :
  Forall (Qle 0) xs ->
  (fold_right Qplus 0 xs == 0 <-> Forall (fun x => x == 0) xs).
Proof.
  induction 1 as [|x r Hx Hr IH]; simpl.
  - split; [constructor | reflexivity].
  - pose proof (fold_right_nonneg r Hr) as Hs. split.
    + intros E. assert (Ex : x == 0) by lra. constructor; [exact Ex|].
      apply IH. lra.
    + intros F. inversion F as [|a b Ha Hb]; subst.
      apply IH in Hb. lra.
Qed.

Lemma div_zero (a c : Q) : 0 < c -> (a / c == 0 <-> a == 0).
Proof.
  intros Hc. split; intros E.
  - rewrite <- (Qmult_div_r a c) by lra. rewrite E. lra.
  - unfold Qdiv. rewrite E. apply Qmult_0_l.
Qed.

Lemma avg_zero (s : string) :
  numbers_str s <> [] ->
  (avg_salary s == 0 <-> Forall (fun t => float_of t == 0) (numbers_str s)).
Proof.
  intros Hne. unfold avg_salary, mean.
  rewrite div_zero by (rewrite length_map; apply length_pos; exact Hne).
  rewrite sum_fold_right, total_zero.
  - rewrite Forall_map. reflexivity.
  - rewrite Forall_map. apply Forall_forall. intros t _.
    apply float_of_nonneg.
Qed.

Lemma rate_nonneg (s : string) (q : Q) (period : string) :
  parse_salary_intelligently (VStr s) = mkInfo (Some q) period -> 0 <= q.
Proof.
  unfold parse_salary_intelligently.
  pose proof (avg_salary_nonneg s) as Havg.
  destruct (numbers_str s) as [|n ns]; [discriminate|].
  assert (Ha : 0 <= avg_salary s) by (apply Havg; discriminate).
  destruct (contains "year" (s_lower s));
    [intros E; injection E as <- _; apply div_nonneg; auto; reflexivity|].
  destruct (contains "month" (s_lower s));
    [intros E; injection E as <- _; apply div_nonneg; auto; reflexivity|].
  destruct (contains "week" (s_lower s));
    [intros E; injection E as <- _; apply div_nonneg; auto; reflexivity|].
  destruct (Qgtb (avg_salary s) 2000);
    [intros E; injection E as <- _; apply div_nonneg; auto; reflexivity|].
  intros E. injection E as <- _. exact Ha.
Qed.

(** X4.  When every matched number is zero the rate is zero, whatever the
    period, and a returned rate fails the test [rate > 0] of line 72 exactly
    when it is zero: the row of such a text is dropped by the cleaning. *)
Theorem rate_zero_when_all_numbers_zero (s : string) (q : Q) (period : string)
  (H : parse_salary_intelligently (VStr s) = mkInfo (Some q) period) :
  (Forall (fun t => float_of t == 0) (numbers_str s) ->
   q == 0 /\ Qgtb q 0 = false)
  /\ (Qgtb q 0 = false <-> q == 0).
Proof.
  assert (Hq : 0 <= q) by (apply (rate_nonneg s q period H)).
  assert (Hgt : Qgtb q 0 = false <-> q == 0).
  { rewrite Qgtb_le. split; intros E; lra. }
  split; [|exact Hgt].
  intros Hzero. assert (E : q == 0); [|split; [exact E | apply Hgt, E]].
  unfold parse_salary_intelligently in H.
  pose proof (avg_zero s) as Z.
  destruct (numbers_str s) as [|n ns]; [discriminate|].
  specialize (Z ltac:(discriminate)). apply Z in Hzero.
  destruct (contains "year" (s_lower s));
    [injection H as <- _; apply div_zero; [reflexivity | exact Hzero]|].
  destruct (contains "month" (s_lower s));
    [injection H as <- _; apply div_zero; [reflexivity | exact Hzero]|].
  destruct (contains "week" (s_lower s));
    [injection H as <- _; apply div_zero; [reflexivity | exact Hzero]|].
  destruct (Qgtb (avg_salary s) 2000);
    [injection H as <- _; apply div_zero; [reflexivity | exact Hzero]|].
  injection H as <- _. exact Hzero.
Qed.

Lemma rate_zero_when_all_numbers_zero_witness :
  exists q : Q,
    parse_salary_intelligently (VStr "$0.00 - $0 per week")
      = mkInfo (Some q) "Weekly"
    /\ q == 0 /\ Qgtb q 0 = false.
Proof.
  exists (avg_salary "$0.00 - $0 per week" / 40).
  assert (H : parse_salary_intelligently (VStr "$0.00 - $0 per week")
              = mkInfo (Some (avg_salary "$0.00 - $0 per week" / 40)) "Weekly")
    by reflexivity.
  split; [exact H|].
  apply (proj1 (rate_zero_when_all_numbers_zero _ _ _ H)).
  change (numbers_str "$0.00 - $0 per week") with ["0.00"; "0"]%string.
  repeat constructor.
Defined.

Lemma digit_not_dot (c : ascii) :
  is_digit c = true -> Ascii.eqb c "." = false.
Proof. destruct c as [[] [] [] [] [] [] [] []]; vm_compute; congruence. Qed.

Lemma before_dot (d rest : string) :
  digits d -> before "." (d ++ String "." rest) = d.
Proof.
  unfold digits. induction d as [|c d IH]; simpl; auto.
  intros H. apply andb_true_iff in H as [Hc Hd].
  rewrite (digit_not_dot c Hc), (IH Hd). reflexivity.
Qed.

Lemma after_dot (d rest : string) :
  digits d -> after "." (d ++ String "." rest) = rest.
Proof.
  unfold digits. induction d as [|c d IH]; simpl; auto.
  intros H. apply andb_true_iff in H as [Hc Hd].
  rewrite (digit_not_dot c Hc). auto.
Qed.

Lemma before_no_dot (d : string) : digits d -> before "." d = d.
Proof.
  unfold digits. induction d as [|c d IH]; simpl; auto.
  intros H. apply andb_true_iff in H as [Hc Hd].
  rewrite (digit_not_dot c Hc), (IH Hd). reflexivity.
Qed.

Lemma after_no_dot (d : string) : digits d -> after "." d = EmptyString.
Proof.
  unfold digits. induction d as [|c d IH]; simpl; auto.
  intros H. apply andb_true_iff in H as [Hc Hd].
  rewrite (digit_not_dot c Hc). auto.
Qed.

Lemma digits_value_app (a : N) (x y : string) :
  digits_value a (x ++ y) = digits_value (digits_value a x) y.
Proof. revert a. induction x as [|c x IH]; intros a; simpl; auto. Qed.

Lemma string_length_app (a b : string) :
  String.length (a ++ b) = (String.length a + String.length b)%nat.
Proof. induction a; simpl; auto. Qed.

(** X5.  Spellings of one decimal number are read as one value: for a whole
    part of one or more digits, a dot with no digit after it, a final zero
    after the dot and a zero in front of the whole part change nothing. *)
Theorem float_of_same_number (d1 d2 : string)
  (Hne : d1 <> EmptyString) (H1 : digits d1) (H2 : digits d2) :
  float_of (d1 ++ ".") == float_of d1
  /\ float_of (d1 ++ String "." (d2 ++ "0")) == float_of (d1 ++ String "." d2)
  /\ float_of (String "0" d1) == float_of d1
  /\ float_of (String "0" (d1 ++ String "." d2))
     == float_of (d1 ++ String "." d2).
Proof.
  assert (F : forall d, digits d ->
                float_of d = Z.of_N (digits_value 0 d) # 1).
  { intros d Hd. unfold float_of.
    rewrite (before_no_dot d Hd), (after_no_dot d Hd), sapp_nil_r.
    reflexivity. }
  assert (G : forall d x, digits d -> digits x ->
                float_of (d ++ String "." x)
                = Z.of_N (digits_value 0 (d ++ x)) # pow10 (String.length x)).
  { intros d x Hd Hx. unfold float_of.
    rewrite (before_dot d x Hd), (after_dot d x Hd). reflexivity. }
  assert (H0 : digits (d2 ++ "0")).
  { apply digits_app; [exact H2 | reflexivity]. }
  assert (Hz : digits (String "0" d1)).
  { unfold digits in *. cbn [all_chars]. rewrite H1. reflexivity. }
  split; [|split; [|split]].
  - rewrite (G d1 EmptyString H1 eq_refl), (F d1 H1), sapp_nil_r. reflexivity.
  - rewrite (G _ _ H1 H0), (G _ _ H1 H2), <- sapp_assoc, digits_value_app.
    rewrite string_length_app, Nat.add_comm. cbn [String.length Nat.add pow10].
    unfold Qeq. cbn [Qnum Qden digits_value].
    change (code "0" - 48)%N with 0%N. lia.
  - rewrite (F _ Hz), (F d1 H1). reflexivity.
  - change (String "0" (d1 ++ String "." d2))
      with (String "0" d1 ++ String "." d2)%string.
    rewrite (G _ _ Hz H2), (G _ _ H1 H2). reflexivity.
Qed.

Lemma float_of_same_number_witness :
  "18" <> EmptyString /\ digits "18" /\ digits "5"
  /\ float_of "18.50" == float_of "18.5"
  /\ float_of "18." == float_of "18"
  /\ float_of "018.5" == float_of "18.5".
Proof.
  assert (H1 : digits "18") by reflexivity.
  assert (H2 : digits "5") by reflexivity.
  assert (Hne : "18" <> EmptyString) by discriminate.
  split; [exact Hne|]. split; [exact H1|]. split; [exact H2|].
  split; [|split].
  - exact (proj1 (proj2 (float_of_same_number "18" "5" Hne H1 H2))).
  - exact (proj1 (float_of_same_number "18" "5" Hne H1 H2)).
  - exact (proj2 (proj2 (proj2 (float_of_same_number "18" "5" Hne H1 H2)))).
Defined.

(** X8.  The label tells which test decided: "Annual" exactly when the
    text mentions a year, "Monthly" exactly when it mentions a month and no
    year, "Weekly" exactly when it mentions a week and neither; an "Hourly"
    rate is the average and is at most 2000, an "Annual (Inferred)" rate is
    above 2000/2080. *)
Theorem label_reflects_text (s : string) (q : Q) (period : string)
  (H : parse_salary_intelligently (VStr s) = mkInfo (Some q) period) :
  let t := s_lower s in
  (period = "Annual"%string <-> occurs "year" t)
  /\ (period = "Monthly"%string <-> ~ occurs "year" t /\ occurs "month" t)
  /\ (period = "Weekly"%string <->
      ~ occurs "year" t /\ ~ occurs "month" t /\ occurs "week" t)
  /\ (period = "Hourly"%string -> q = avg_salary s /\ q <= 2000)
  /\ (period = "Annual (Inferred)"%string -> 2000 # 2080 < q).
Proof.
  intros t. unfold parse_salary_intelligently in H. fold t in H.
  destruct (numbers_str s) as [|n ns]; [discriminate|].
  rewrite <- !contains_false, <- !contains_occurs.
  destruct (contains "year" t);
    [injection H as <- <-; repeat split; intros; try discriminate;
     intuition congruence|].
  destruct (contains "month" t);
    [injection H as <- <-; repeat split; intros; try discriminate;
     intuition congruence|].
  destruct (contains "week" t);
    [injection H as <- <-; repeat split; intros; try discriminate;
     intuition congruence|].
  destruct (Qgtb (avg_salary s) 2000) eqn:E.
  - injection H as <- <-. apply Qgtb_lt in E.
    repeat split; intros; try discriminate; try (intuition congruence).
    apply Qlt_shift_div_l; [reflexivity | lra].
  - injection H as <- <-. apply Qgtb_le in E.
    repeat split; intros; try discriminate; intuition congruence.
Qed.

Lemma label_reflects_text_witness :
  parse_salary_intelligently (VStr "Up to $19.75")
    = mkInfo (Some (avg_salary "Up to $19.75")) "Hourly"
  /\ avg_salary "Up to $19.75" <= 2000.
Proof.
  assert (H : parse_salary_intelligently (VStr "Up to $19.75")
              = mkInfo (Some (avg_salary "Up to $19.75")) "Hourly")
    by reflexivity.
  split; [exact H|].
  exact (proj2 (proj1 (proj2 (proj2 (proj2 (label_reflects_text _ _ _ H))))
                  eq_refl)).
Defined.

End SalaryMore.

(** ** City names, again *)

Module CityMore.
Import PyStr City PyStrFacts RegexFacts CityFacts.

Lemma canonicalize_fixed (name : string) :
  canonicalize (canonicalize name) = canonicalize name.
Proof.
  unfold canonicalize, CITY_NORMALIZATION_MAP. cbn [dict_get].
  repeat match goal with
         | |- context [String.eqb ?k (lower name)] =>
             destruct (String.eqb k (lower name)) eqn:?; [reflexivity|]
         end.
  cbn [dict_get].
  repeat match goal with
         | H : String.eqb _ (lower name) = false |- _ => rewrite H; clear H
         end.
  reflexivity.
Qed.

(** X6.  The alias lookup is idempotent: a name it returns is returned
    unchanged when looked up again, so no canonical name is itself treated
    as an alias of another. *)
Theorem canonicalize_idempotent (name : string) :
  canonicalize (canonicalize name) = canonicalize name.
Proof. apply canonicalize_fixed. Qed.

Lemma comma_free_before (s : string) : comma_free s -> before "," s = s.
Proof.
  unfold comma_free. induction s as [|c s IH]; simpl; auto.
  intros H. apply andb_true_iff in H as [Hc Hs].
  apply negb_true_iff in Hc. rewrite Hc, (IH Hs). reflexivity.
Qed.

Lemma comma_free_app (a b : string) :
  comma_free (a ++ b) -> comma_free a /\ comma_free b.
Proof.
  unfold comma_free. induction a as [|c a IH]; simpl; auto.
  intros H. apply andb_true_iff in H as [Hc Hs].
  destruct (IH Hs) as [Ha Hb]. rewrite Hc, Ha. auto.
Qed.

Lemma lstrip_fixed (s : string) : not_space (first_char s) -> lstrip s = s.
Proof. destruct s as [|c s]; simpl; auto. intros ->. reflexivity. Qed.

Lemma rstrip_fixed (s : string) : not_space (last_char s) -> rstrip s = s.
Proof.
  induction s as [|c s IH]; auto.
  destruct s as [|c' s'].
  - simpl. intros ->. reflexivity.
  - intros H. rewrite last_char_cons in H by discriminate.
    change (rstrip (String c (String c' s')))
      with (match rstrip (String c' s') with
            | EmptyString =>
                if is_space c then EmptyString else String c EmptyString
            | String a r => String c (String a r)
            end).
    rewrite (IH H). reflexivity.
Qed.

Lemma strip_idem (s : string) : strip (strip s) = strip s.
Proof.
  destruct (strip_split s) as [lead [trail [_ [_ [_ [Hf Hl]]]]]].
  unfold strip at 1. rewrite (lstrip_fixed _ Hf). apply rstrip_fixed, Hl.
Qed.

Lemma strip_comma_free (s : string) : comma_free s -> comma_free (strip s).
Proof.
  intros H. destruct (strip_split s) as [lead [trail [E _]]].
  rewrite E in H. apply comma_free_app in H as [_ H].
  apply comma_free_app in H as [H _]. exact H.
Qed.

Lemma extract_city_fixed (x : string) :
  comma_free (strip (before "," x))
  /\ extract_city (VStr (strip (before "," x)))
     = Ok (strip (before "," x)).
Proof.
  destruct (before_split x) as [rest [_ [_ Hc]]].
  pose proof (strip_comma_free _ Hc) as Hs.
  split; [exact Hs|].
  unfold extract_city. rewrite (comma_free_before _ Hs), strip_idem.
  reflexivity.
Qed.

(** X7.  A city name extracted from a location holds no comma and no white
    space at either end, and extracting from the name itself gives the name
    back. *)
Theorem extract_city_idempotent (x : string) :
  exists name : string,
    extract_city (VStr x) = Ok name
    /\ comma_free name
    /\ not_space (first_char name) /\ not_space (last_char name)
    /\ extract_city (VStr name) = Ok name.
Proof.
  exists (strip (before "," x)).
  destruct (extract_city_fixed x) as [Hc He].
  destruct (strip_split (before "," x)) as [lead [trail [_ [_ [_ [Hf Hl]]]]]].
  repeat split; assumption.
Qed.

End CityMore.

(** ** The cleaning pass, again *)

Module NormalizerMore.
Import City Normalizer NormalizerFacts Text.

Lemma kept_none (df : DataFrame) :
  filter (usable df) (rows df) = [] <->
  filter_map keep_row (salary_data df) = [].
Proof.
  pose proof (kept_rows df) as K. split; intros E; rewrite E in K;
    inversion K; reflexivity.
Qed.

Lemma extract_city_text (v : PyVal) :
  (exists name, extract_city v = Ok name) <-> text_or_missing v = true.
Proof.
  destruct v as [| |x|q|l]; simpl; split; eauto; try discriminate.
  - intros [name E]. discriminate.
  - intros [name E]. destruct l as [|a [|b l]]; discriminate.
Qed.

Lemma finish_usable (df : DataFrame) :
  (exists out, mapM (finish_row (has_column df "benefits"))
                    (filter_map keep_row (salary_data df)) = Ok out)
  <-> Forall (fun r => text_or_missing (location r) = true)
             (filter (usable df) (rows df)).
Proof.
  pose proof (kept_rows df) as K.
  induction K as [|r k rs ks [Ek _] K IH].
  - split; [constructor | exists []; reflexivity].
  - rewrite Ek. cbn [mapM]. unfold finish_row at 1. split.
    + intros [out E].
      destruct (extract_city (location r)) as [oc|e] eqn:Eo;
        [|discriminate].
      constructor; [apply extract_city_text; eauto|].
      apply IH. simpl in E.
      destruct (mapM _ ks) as [cs|e]; [eauto | discriminate].
    + intros F. inversion F as [|r' rs' Hr Hrs]; subst.
      apply extract_city_text in Hr as [oc Eo].
      apply IH in Hrs as [cs Ecs].
      rewrite Eo. simpl. rewrite Ecs. simpl. eauto.
Qed.

Lemma no_salary_unusable (df : DataFrame) :
  has_column df "salary" = false -> filter (usable df) (rows df) = [].
Proof.
  intros Hs. unfold usable. rewrite Hs.
  generalize (rows df). intros l. induction l; simpl; auto.
Qed.

(** X9.  On a frame with rows and without a salary column the cleaning
    returns the empty dataset.  On a frame with rows that brings no
    [hourly_rate] column of its own it returns the empty dataset when no row
    has a usable rate, raises KeyError when a row is usable and the location
    column is missing, and with the location column it succeeds exactly
    when the location of every usable row is a text or missing, the
    locations of dropped rows never being read. *)
Theorem clean_outcomes (df : DataFrame) (Hrows : rows df <> []) :
  (has_column df "salary" = false -> clean_and_process_data df = Ok [])
  /\ (has_column df "hourly_rate" = false ->
      (filter (usable df) (rows df) = [] ->
       clean_and_process_data df = Ok [])
      /\ (filter (usable df) (rows df) <> [] ->
          has_column df "location" = false ->
          clean_and_process_data df = Raise (KeyError "location"))
      /\ (has_column df "location" = true ->
          ((exists out, clean_and_process_data df = Ok out) <->
           Forall (fun r => text_or_missing (location r) = true)
                  (filter (usable df) (rows df))))).
Proof.
  split.
  - intros Hs. rewrite (clean_nonempty df Hrows) by (rewrite Hs; reflexivity).
    apply no_salary_unusable, kept_none in Hs. rewrite Hs. reflexivity.
  - intros Hr.
    rewrite (clean_nonempty df Hrows) by (rewrite Hr; apply andb_false_r).
    split; [|split].
    + intros E. apply kept_none in E. rewrite E. reflexivity.
    + intros Hu Hl. rewrite kept_none in Hu.
      destruct (filter_map keep_row (salary_data df)); [congruence|].
      rewrite Hl. reflexivity.
    + intros Hl. rewrite <- finish_usable.
      destruct (filter_map keep_row (salary_data df)) as [|k ks] eqn:Ek.
      * split; [exists []; reflexivity | eauto].
      * rewrite Hl. reflexivity.
Qed.

Lemma clean_outcomes_witness :
  rows sample_frame <> []
  /\ has_column sample_frame "hourly_rate" = false
  /\ has_column sample_frame "location" = true
  /\ exists out, clean_and_process_data sample_frame = Ok out.
Proof.
  assert (Hrows : rows sample_frame <> []) by discriminate.
  split; [exact Hrows|]. split; [reflexivity|]. split; [reflexivity|].
  apply (proj2 (proj2 (proj2 (proj2 (clean_outcomes sample_frame Hrows)
                                eq_refl)) eq_refl)).
  repeat constructor.
Defined.

(** X10.  Cleaning keeps the order of the rows and alters no raw field: the
    records of the result are, one for one and in order, the usable rows,
    each with its title, company, location, salary and url unchanged, its
    benefits as they were if they were a list and empty otherwise, and its
    two city fields derived from its location. *)
Theorem clean_keeps_raw_fields (df : DataFrame) (out : list CanonicalRecord)
  (H : clean_and_process_data df = Ok out) :
  Forall2 (fun r c =>
             c_title c = title r /\ c_company c = company r
             /\ c_location c = location r /\ c_salary c = salary r
             /\ c_url c = url r
             /\ c_benefits c
                = (if has_column df "benefits"
                   then match benefits r with VList l => l | _ => [] end
                   else [])
             /\ extract_city (location r) = Ok (original_city c)
             /\ city c = canonicalize (original_city c))
          (filter (usable df) (rows df)) out
  /\ (List.length out <= List.length (rows df))%nat.
Proof.
  apply clean_rows in H. split.
  - apply (Forall2_impl
             (R1 := fun r c => cleaned_from df r c /\ canonical_ok c));
      [|exact H].
    intros r c [[Ht [Hc [Hl [Hs [Hu Hb]]]]] [_ [_ [Ho Hci]]]].
    rewrite Hl in Ho. repeat split; assumption.
  - apply Forall2_length in H. rewrite <- H. apply filter_length_le.
Qed.

Lemma clean_keeps_raw_fields_witness :
  clean_and_process_data sample_frame = Ok sample_clean
  /\ (List.length sample_clean <= List.length (rows sample_frame))%nat.
Proof.
  assert (E : clean_and_process_data sample_frame = Ok sample_clean)
    by reflexivity.
  split; [exact E|].
  exact (proj2 (clean_keeps_raw_fields sample_frame sample_clean E)).
Defined.

(** X11.  The derived fields of a cleaned record are stable: extracting a
    city from its [original_city] gives [original_city] back, and looking
    its [city] up in the alias table gives [city] back. *)
Theorem cleaned_cities_are_stable (df : DataFrame)
  (out : list CanonicalRecord) (H : clean_and_process_data df = Ok out) :
  Forall (fun c =>
            extract_city (VStr (original_city c)) = Ok (original_city c)
            /\ canonicalize (city c) = city c) out.
Proof.
  apply clean_canonical in H.
  apply (Forall_impl _ (P := canonical_ok)); [|exact H].
  intros c [_ [_ [Ho Hc]]]. split.
  - destruct (c_location c) as [| |x|q|l]; simpl in Ho;
      try (injection Ho as <-; reflexivity); try discriminate.
    + injection Ho as <-. apply CityMore.extract_city_fixed.
    + destruct l as [|a [|b l]]; discriminate.
  - rewrite Hc. apply CityMore.canonicalize_fixed.
Qed.

Lemma cleaned_cities_are_stable_witness :
  clean_and_process_data sample_frame = Ok sample_clean
  /\ Forall (fun c =>
               extract_city (VStr (original_city c)) = Ok (original_city c)
               /\ canonicalize (city c) = city c) sample_clean.
Proof.
  assert (E : clean_and_process_data sample_frame = Ok sample_clean)
    by reflexivity.
  split; [exact E|].
  exact (cleaned_cities_are_stable sample_frame sample_clean E).
Defined.

End NormalizerMore.

(** ** The filter, again *)

Module FilterMore.
Import PyStr Filter PyStrFacts FilterFacts.

(** The test the filter applies to each record, when the keyword is within
    the modelled patterns. *)
Lemma apply_filters_select (f : FilterCriteria) :
  exists sel : option (CanonicalRecord -> bool),
    (forall df, apply_filters df f = option_map (fun k => filter k df) sel)
    /\ (forall k c, sel = Some k -> k c = true ->
          city_pass f c = true /\ range_pass f c = true
          /\ (f_keyword f <> EmptyString -> exists t, c_title c = VStr t)).
Proof.
  unfold apply_filters. destruct (f_keyword f) as [|a kw] eqn:Ek.
  - exists (Some (fun c => city_pass f c && range_pass f c)). split.
    + intros df. rewrite filter_city, filter_filter. reflexivity.
    + intros k c E H. injection E as <-.
      apply andb_true_iff in H as [H1 H2]. repeat split; auto. congruence.
  - destruct (compile (String a kw)) as [p|].
    + exists (Some (fun c => city_pass f c
                             && (range_pass f c
                                 && str_contains p (c_title c)))). split.
      * intros df. rewrite filter_city, !filter_filter. reflexivity.
      * intros k c E H. injection E as <-.
        apply andb_true_iff in H as [H1 H].
        apply andb_true_iff in H as [H2 H3]. repeat split; auto.
        intros _. destruct (c_title c); try discriminate. eauto.
    + exists None. split; [reflexivity | discriminate].
Qed.

Lemma filter_idem {A : Type} (k : A -> bool) (l : list A) :
  filter k (filter k l) = filter k l.
Proof.
  rewrite filter_filter. apply filter_ext. intros a. destruct (k a); auto.
Qed.

Lemma isin_In (x : string) (l : list string) : isin x l = true <-> In x l.
Proof.
  unfold isin. rewrite existsb_exists. split.
  - intros [y [Hy E]]. apply String.eqb_eq in E. subst. exact Hy.
  - intros H. exists x. split; [exact H | apply String.eqb_refl].
Qed.

(** X12.  What the filter returns is a selection from the dataset, in the
    dataset's order, made record by record; every record it keeps has the
    selected city (or any city under "-- All Cities --"), an accepted pay
    period, a rate within the range with both ends included and, when a
    keyword is given, a title that is a text. *)
Theorem filter_selects (df out : list CanonicalRecord) (f : FilterCriteria)
  (H : apply_filters df f = Some out) :
  (exists keep : CanonicalRecord -> bool, out = filter keep df)
  /\ Forall (fun c =>
               (f_city f = ALL_CITIES \/ city c = f_city f)
               /\ In (pay_period c) (f_pay_periods f)
               /\ (fst (f_salary_range f) <= hourly_rate c)%Q
               /\ (hourly_rate c <= snd (f_salary_range f))%Q
               /\ (f_keyword f <> EmptyString ->
                   exists t, c_title c = VStr t)) out.
Proof.
  destruct (apply_filters_select f) as [sel [Hsel Hk]].
  rewrite Hsel in H. destruct sel as [k|]; [|discriminate].
  injection H as <-. split; [exists k; reflexivity|].
  apply Forall_forall. intros c Hc. apply filter_In in Hc as [_ Hc].
  destruct (Hk k c eq_refl Hc) as [H1 [H2 H3]].
  unfold city_pass in H1. unfold range_pass in H2.
  apply andb_true_iff in H2 as [H2 Hhi].
  apply andb_true_iff in H2 as [Hp Hlo].
  apply isin_In in Hp. apply Qle_bool_iff in Hlo, Hhi.
  repeat split; auto.
  destruct (String.eqb_spec (f_city f) ALL_CITIES); [left; auto|].
  right. apply String.eqb_eq. exact H1.
Qed.

Lemma filter_selects_witness :
  apply_filters [driver] dot_keyword = Some [driver]
  /\ Forall (fun c => In (pay_period c) (f_pay_periods dot_keyword)) [driver].
Proof.
  assert (H : apply_filters [driver] dot_keyword = Some [driver])
    by reflexivity.
  split; [exact H|].
  eapply Forall_impl; [|exact (proj2 (filter_selects _ _ _ H))].
  intros c Hc. apply Hc.
Defined.

(** X13.  Filtering is idempotent, and it treats each record on its own:
    the result on two datasets put end to end is the two results put end to
    end. *)
Theorem filter_idempotent_and_local (a b oa ob : list CanonicalRecord)
  (f : FilterCriteria)
  (Ha : apply_filters a f = Some oa) (Hb : apply_filters b f = Some ob) :
  apply_filters oa f = Some oa
  /\ apply_filters (a ++ b) f = Some (oa ++ ob).
Proof.
  destruct (apply_filters_select f) as [sel [Hsel _]].
  rewrite (Hsel a) in Ha. rewrite (Hsel b) in Hb.
  rewrite (Hsel oa), (Hsel (a ++ b)).
  destruct sel as [k|]; [|discriminate].
  injection Ha as <-. injection Hb as <-. simpl.
  rewrite filter_idem, filter_app. auto.
Qed.

Lemma filter_idempotent_and_local_witness :
  apply_filters [driver] dot_keyword = Some [driver]
  /\ apply_filters ([driver] ++ [driver]) dot_keyword
     = Some ([driver] ++ [driver]).
Proof.
  assert (H : apply_filters [driver] dot_keyword = Some [driver])
    by reflexivity.
  split; [exact H|].
  exact (proj2 (filter_idempotent_and_local _ _ _ _ _ H H)).
Defined.

(** X14.  On a dataset whose title column holds a text, with no pay period
    accepted the filter returns the empty dataset, and so it does when the
    lower end of the range lies above the upper end; a keyword of ordinary
    characters is then searched in a column left empty, which is no error.
    (A title column without any text is numeric, and on it the [.str]
    accessor of line 232 raises AttributeError for every keyword that is
    not empty: such datasets are excluded here.) *)
Theorem filter_empty_selection (df : list CanonicalRecord)
  (f : FilterCriteria)
  (Htext : Exists (fun c => KeywordTab.is_text (c_title c) = true) df)
  (Hk : ordinary (f_keyword f))
  (Hf : f_pay_periods f = []
        \/ (snd (f_salary_range f) < fst (f_salary_range f))%Q) :
  apply_filters df f = Some [].
Proof.
  rewrite (apply_filters_ordinary df f Hk). f_equal. clear Htext.
  induction df as [|c df IH]; simpl; auto.
  assert (E : passes f c = false).
  { unfold passes, range_pass. destruct Hf as [Hf|Hf].
    - rewrite Hf. simpl. rewrite andb_false_r. reflexivity.
    - destruct (Qle_bool (fst (f_salary_range f)) (hourly_rate c)) eqn:E1;
        [|rewrite !andb_false_r; reflexivity].
      destruct (Qle_bool (hourly_rate c) (snd (f_salary_range f))) eqn:E2;
        [|rewrite !andb_false_r; reflexivity].
      apply Qle_bool_iff in E1, E2. exfalso.
      apply (Qlt_not_le _ _ Hf). apply (Qle_trans _ (hourly_rate c)); auto. }
  rewrite E. exact IH.
Qed.

Lemma filter_empty_selection_witness :
  Exists (fun c => KeywordTab.is_text (c_title c) = true) [driver]
  /\ apply_filters [driver] (mkCriteria ALL_CITIES [] "driver" (0, 100))
     = Some [].
Proof.
  assert (Htext : Exists (fun c => KeywordTab.is_text (c_title c) = true)
                         [driver])
    by (apply Exists_cons_hd; reflexivity).
  split; [exact Htext|].
  apply (filter_empty_selection [driver]
           (mkCriteria ALL_CITIES [] "driver" (0, 100)) Htext);
    [reflexivity | left; reflexivity].
Defined.

Lemma special_lower (c : ascii) : is_special (lower_char c) = is_special c.
Proof. destruct c as [[] [] [] [] [] [] [] []]; reflexivity. Qed.

Lemma dot_lower (c : ascii) : Ascii.eqb (lower_char c) "." = Ascii.eqb c ".".
Proof. destruct c as [[] [] [] [] [] [] [] []]; reflexivity. Qed.

Lemma compile_lower (kw : string) : compile (lower kw) = compile kw.
Proof.
  induction kw as [|c kw IH]; simpl; auto.
  rewrite IH, dot_lower, special_lower, SalaryMore.lower_char_idem.
  reflexivity.
Qed.

(** X15.  For a keyword made of ordinary characters and dots the letter
    case does not matter: two such keywords that differ only in case give
    the same result on every dataset.  (An escape such as a backslash
    followed by a letter changes its meaning with the case of the letter;
    such keywords are excluded here.) *)
Theorem filter_keyword_case (df : list CanonicalRecord) (f : FilterCriteria)
  (kw : string) (Hc : compile (f_keyword f) <> None)
  (H : lower kw = lower (f_keyword f)) :
  compile kw <> None
  /\ apply_filters df (mkCriteria (f_city f) (f_pay_periods f) kw
                                  (f_salary_range f))
     = apply_filters df f.
Proof.
  assert (Ec : compile kw = compile (f_keyword f)).
  { rewrite <- (compile_lower kw), H. apply compile_lower. }
  split; [rewrite Ec; exact Hc|].
  unfold apply_filters, range_pass. cbn [f_city f_pay_periods f_keyword
                                         f_salary_range].
  destruct kw as [|a kw]; destruct (f_keyword f) as [|b kw'];
    try discriminate; auto.
  rewrite Ec. reflexivity.
Qed.

Lemma filter_keyword_case_witness :
  compile "driver" <> None
  /\ apply_filters [driver] (mkCriteria ALL_CITIES ["Hourly"] "DRIVER" (0, 100))
     = apply_filters [driver]
         (mkCriteria ALL_CITIES ["Hourly"] "driver" (0, 100)).
Proof.
  assert (Hc : compile "driver" <> None) by (vm_compute; discriminate).
  split; [exact Hc|].
  exact (proj2 (filter_keyword_case [driver]
                  (mkCriteria ALL_CITIES ["Hourly"] "driver" (0, 100))
                  "DRIVER" Hc eq_refl)).
Defined.

End FilterMore.

(** ** The sidebar *)

Module SidebarMore.
Import Filter Sidebar FilterFacts FilterMore.

Lemma unique_In (x : string) (l : list string) : In x (unique l) <-> In x l.
Proof.
  induction l as [|a l IH]; simpl; [tauto|].
  rewrite filter_In, IH, negb_true_iff, String.eqb_neq.
  destruct (string_dec a x); split; intuition congruence.
Qed.

Lemma unique_NoDup (l : list string) : NoDup (unique l).
Proof.
  induction l as [|a l IH]; simpl; constructor.
  - rewrite filter_In, negb_true_iff, String.eqb_neq. tauto.
  - apply NoDup_filter, IH.
Qed.

Lemma insert_str_perm (x : string) (l : list string) :
  Permutation (x :: l) (insert_str x l).
Proof.
  induction l as [|y r IH]; simpl; auto.
  destruct (String.leb x y); auto.
  rewrite perm_swap. constructor. exact IH.
Qed.

Lemma sorted_perm (l : list string) : Permutation l (sorted l).
Proof.
  induction l as [|x r IH]; simpl; auto.
  rewrite <- insert_str_perm. constructor. exact IH.
Qed.

Lemma insert_str_ascending (x : string) (l : list string) :
  ascending l -> ascending (insert_str x l).
Proof.
  unfold ascending. induction 1 as [|y r Hr IH Hy]; simpl.
  - repeat constructor.
  - destruct (String.leb x y) eqn:E.
    + repeat constructor; assumption.
    + constructor; [exact IH|].
      assert (Eyx : String.leb y x = true).
      { destruct (String.leb_total x y); congruence. }
      destruct r as [|z r]; simpl.
      * constructor. exact Eyx.
      * destruct (String.leb x z); constructor; auto.
        inversion Hy. assumption.
Qed.

Lemma sorted_ascending (l : list string) : ascending (sorted l).
Proof.
  induction l as [|x r IH]; simpl.
  - constructor.
  - apply insert_str_ascending, IH.
Qed.

Lemma options_In (x : string) (l : list string) :
  In x (sorted (unique l)) <-> In x l.
Proof.
  rewrite <- (unique_In x l). split; apply Permutation_in.
  - symmetry. apply sorted_perm.
  - apply sorted_perm.
Qed.

Lemma options_NoDup (l : list string) : NoDup (sorted (unique l)).
Proof. apply (Permutation_NoDup (sorted_perm _)), unique_NoDup. Qed.

Lemma all_cities_In (df : list CanonicalRecord) (x : string) :
  In x (all_cities df) <-> exists c, In c df /\ city c = x.
Proof.
  unfold all_cities. rewrite options_In, in_map_iff.
  split; intros [c [H1 H2]]; exists c; auto.
Qed.

Lemma pay_periods_In (df : list CanonicalRecord) (x : string) :
  In x (pay_period_options df) <-> exists c, In c df /\ pay_period c = x.
Proof.
  unfold pay_period_options. rewrite options_In, in_map_iff.
  split; intros [c [H1 H2]]; exists c; auto.
Qed.

(** X16.  The city box offers "-- All Cities --" first and then every city
    of the dataset once, in ascending order; the pay-period box offers
    every pay period of the dataset once, in ascending order. *)
Theorem sidebar_options (df : list CanonicalRecord) :
  city_options df = ALL_CITIES :: all_cities df
  /\ ascending (all_cities df) /\ NoDup (all_cities df)
  /\ (forall x, In x (all_cities df) <-> exists c, In c df /\ city c = x)
  /\ ascending (pay_period_options df) /\ NoDup (pay_period_options df)
  /\ (forall x, In x (pay_period_options df) <->
                exists c, In c df /\ pay_period c = x).
Proof.
  split; [reflexivity|].
  split; [apply sorted_ascending|]. split; [apply options_NoDup|].
  split; [apply all_cities_In|].
  split; [apply sorted_ascending|]. split; [apply options_NoDup|].
  apply pay_periods_In.
Qed.

Local Open Scope Q_scope.

Lemma Qmin2_spec (a b : Q) :
  Qmin2 a b <= a /\ Qmin2 a b <= b /\ (Qmin2 a b = a \/ Qmin2 a b = b).
Proof.
  unfold Qmin2. destruct (Qle_bool a b) eqn:E.
  - apply Qle_bool_iff in E. repeat split; auto; lra.
  - assert (~ a <= b) by (rewrite <- Qle_bool_iff; congruence).
    repeat split; auto; lra.
Qed.

Lemma Qmax2_spec (a b : Q) :
  a <= Qmax2 a b /\ b <= Qmax2 a b /\ (Qmax2 a b = a \/ Qmax2 a b = b).
Proof.
  unfold Qmax2. destruct (Qle_bool a b) eqn:E.
  - apply Qle_bool_iff in E. repeat split; auto; lra.
  - assert (~ a <= b) by (rewrite <- Qle_bool_iff; congruence).
    repeat split; auto; lra.
Qed.

Lemma fold_min (r : list Q) (x : Q) :
  In (fold_left Qmin2 r x) (x :: r)
  /\ Forall (fun y => fold_left Qmin2 r x <= y) (x :: r).
Proof.
  revert x. induction r as [|y r IH]; intros x; simpl.
  - split; [auto|]. repeat constructor. lra.
  - destruct (IH (Qmin2 x y)) as [Hin Hall].
    destruct (Qmin2_spec x y) as [Hx [Hy Hc]].
    inversion Hall as [|m l Hm Hr]; subst. split.
    + destruct Hin as [Hin|Hin]; [|auto].
      rewrite <- Hin. destruct Hc as [->| ->]; auto.
    + constructor; [lra|]. constructor; [lra | exact Hr].
Qed.

Lemma fold_max (r : list Q) (x : Q) :
  In (fold_left Qmax2 r x) (x :: r)
  /\ Forall (fun y => y <= fold_left Qmax2 r x) (x :: r).
Proof.
  revert x. induction r as [|y r IH]; intros x; simpl.
  - split; [auto|]. repeat constructor. lra.
  - destruct (IH (Qmax2 x y)) as [Hin Hall].
    destruct (Qmax2_spec x y) as [Hx [Hy Hc]].
    inversion Hall as [|m l Hm Hr]; subst. split.
    + destruct Hin as [Hin|Hin]; [|auto].
      rewrite <- Hin. destruct Hc as [->| ->]; auto.
    + constructor; [lra|]. constructor; [lra | exact Hr].
Qed.

Lemma initial_range (df : list CanonicalRecord) (f : FilterCriteria) :
  initial_filters df = Some f ->
  f_city f = ALL_CITIES /\ f_keyword f = EmptyString
  /\ f_pay_periods f = pay_period_options df
  /\ In (fst (f_salary_range f)) (map hourly_rate df)
  /\ In (snd (f_salary_range f)) (map hourly_rate df)
  /\ fst (f_salary_range f) < snd (f_salary_range f)
  /\ Forall (fun c => fst (f_salary_range f) <= hourly_rate c
                      /\ hourly_rate c <= snd (f_salary_range f)) df.
Proof.
  destruct df as [|c df]; [discriminate|].
  unfold initial_filters. cbn [map series_min series_max].
  destruct (fold_min (map hourly_rate df) (hourly_rate c)) as [Hi Hl].
  destruct (fold_max (map hourly_rate df) (hourly_rate c)) as [Ha Hh].
  destruct (Salary.Qgtb _ _) eqn:Eg; [|discriminate].
  intros E. injection E as <-.
  cbn [f_city f_keyword f_pay_periods f_salary_range fst snd].
  apply SalaryFacts.Qgtb_lt in Eg.
  repeat split; auto.
  change (hourly_rate c :: map hourly_rate df)
    with (map hourly_rate (c :: df)) in Hl, Hh.
  rewrite Forall_map in Hl, Hh. rewrite Forall_forall in *.
  intros x Hx. split; auto.
Qed.

Lemma initial_range_pass (df : list CanonicalRecord) (f : FilterCriteria) :
  initial_filters df = Some f ->
  forall c, In c df -> range_pass f c = true.
Proof.
  intros E c Hc.
  destruct (initial_range df f E) as [_ [_ [Hp [_ [_ [_ Hr]]]]]].
  rewrite Forall_forall in Hr. destruct (Hr c Hc) as [Hlo Hhi].
  unfold range_pass. rewrite Hp.
  apply Qle_bool_iff in Hlo, Hhi. rewrite Hlo, Hhi, !andb_true_r.
  apply isin_In, pay_periods_In. eauto.
Qed.

Lemma initial_all (df : list CanonicalRecord) (f : FilterCriteria) :
  initial_filters df = Some f -> apply_filters df f = Some df.
Proof.
  intros E.
  destruct (initial_range df f E) as [Hc [Hk _]].
  rewrite apply_filters_ordinary by (rewrite Hk; reflexivity). f_equal.
  rewrite <- (filter_true df) at 2. apply filter_ext_in. intros c Hin.
  unfold passes, city_pass. rewrite Hk, Hc, String.eqb_refl.
  rewrite (initial_range_pass df f E c Hin). reflexivity.
Qed.

(** X17.  Before any widget is touched the filters keep the whole dataset:
    every city, every pay period present, no keyword, and a rate range that
    runs from the least to the greatest rate of the dataset. *)
Theorem initial_filters_keep_all (df : list CanonicalRecord)
  (f : FilterCriteria) (Hf : initial_filters df = Some f) :
  apply_filters df f = Some df
  /\ f_city f = ALL_CITIES /\ f_keyword f = EmptyString
  /\ f_pay_periods f = pay_period_options df
  /\ In (fst (f_salary_range f)) (map hourly_rate df)
  /\ In (snd (f_salary_range f)) (map hourly_rate df)
  /\ Forall (fun c => fst (f_salary_range f) <= hourly_rate c
                      /\ hourly_rate c <= snd (f_salary_range f)) df.
Proof.
  destruct (initial_range df f Hf) as [Hc [Hk [Hp [Hlo [Hhi [_ Hr]]]]]].
  repeat split; auto. apply initial_all, Hf.
Qed.

Lemma initial_filters_keep_all_witness :
  initial_filters TopN.sample_jobs
    = Some (mkCriteria ALL_CITIES ["Hourly"] EmptyString (20, 31))
  /\ apply_filters TopN.sample_jobs
       (mkCriteria ALL_CITIES ["Hourly"] EmptyString (20, 31))
     = Some TopN.sample_jobs.
Proof.
  assert (E : initial_filters TopN.sample_jobs
              = Some (mkCriteria ALL_CITIES ["Hourly"] EmptyString (20, 31)))
    by reflexivity.
  split; [exact E|].
  exact (proj1 (initial_filters_keep_all TopN.sample_jobs _ E)).
Defined.

(** X18.  Picking a city that the box offers, other than the first entry
    and with the other widgets untouched, gives exactly the records of that
    city, in the dataset's order, and at least one. *)
Theorem offered_city_has_records (df : list CanonicalRecord)
  (f : FilterCriteria) (selected_city : string)
  (Hf : initial_filters df = Some f)
  (Hin : In selected_city (all_cities df))
  (Hnot : selected_city <> ALL_CITIES) :
  apply_filters df (with_city f selected_city)
    = Some (filter (fun c => String.eqb (city c) selected_city) df)
  /\ filter (fun c => String.eqb (city c) selected_city) df <> [].
Proof.
  assert (Hk : f_keyword f = EmptyString)
    by (apply (initial_range df f Hf)).
  split.
  - rewrite apply_filters_ordinary
      by (unfold with_city; simpl; rewrite Hk; reflexivity).
    f_equal. apply filter_ext_in. intros c Hc.
    unfold passes, city_pass, with_city. cbn [f_city f_keyword].
    apply String.eqb_neq in Hnot. rewrite Hnot, Hk.
    pose proof (initial_range_pass df f Hf c Hc) as Hr.
    unfold range_pass in *. cbn [f_pay_periods f_salary_range].
    rewrite Hr. rewrite !andb_true_r. reflexivity.
  - apply all_cities_In in Hin as [c [Hc Ec]].
    intros E.
    assert (Hf' : In c (filter (fun c => String.eqb (city c) selected_city)
                               df)).
    { apply filter_In. split; [exact Hc|]. apply String.eqb_eq, Ec. }
    rewrite E in Hf'. contradiction.
Qed.

Lemma offered_city_has_records_witness :
  exists f : FilterCriteria,
    initial_filters Normalizer.sample_clean = Some f
    /\ In "South Brunswick"%string (all_cities Normalizer.sample_clean)
    /\ filter (fun c => String.eqb (city c) "South Brunswick")
              Normalizer.sample_clean <> [].
Proof.
  assert (Hin : In "South Brunswick"%string
                   (all_cities Normalizer.sample_clean))
    by (simpl; auto).
  assert (Hnot : "South Brunswick"%string <> ALL_CITIES) by discriminate.
  eexists. split; [reflexivity|]. split; [exact Hin|].
  exact (proj2 (offered_city_has_records Normalizer.sample_clean _
                  "South Brunswick" eq_refl Hin Hnot)).
Defined.

End SidebarMore.

(** ** The keyword table *)

Module KeywordMore.
Import PyStr Filter KeywordTab FilterFacts.

Lemma keywords_ordinary : Forall ordinary KEYWORDS.
Proof. repeat constructor. Qed.

Lemma keyword_subset_ordinary (kw : string) (df : list CanonicalRecord) :
  ordinary kw ->
  keyword_subset kw df
  = Some (filter (fun c => icontains kw (c_title c)) df).
Proof.
  intros Hk. unfold keyword_subset. rewrite (compile_ordinary kw Hk).
  f_equal. apply filter_ext. intros c.
  unfold str_contains, icontains. destruct (c_title c); auto.
  apply search_contains.
Qed.

Lemma filter_nil_existsb {A : Type} (p : A -> bool) (l : list A) :
  existsb p l = match filter p l with [] => false | _ :: _ => true end.
Proof.
  induction l as [|a l IH]; simpl; auto. destruct (p a); simpl; auto.
Qed.

Lemma collect_ordinary (kws : list string) (df : list CanonicalRecord) :
  Forall ordinary kws ->
  exists table : list (string * nat * Q),
    collect kws df = Some table
    /\ map (fun e => fst (fst e)) table
       = filter (fun kw => existsb (fun c => icontains kw (c_title c)) df) kws
    /\ Forall (fun e =>
                 let subset :=
                   filter (fun c => icontains (fst (fst e)) (c_title c)) df in
                 snd (fst e) = List.length subset
                 /\ snd e = Salary.mean (map hourly_rate subset)) table.
Proof.
  induction 1 as [|kw kws Hk _ [table [E [Hm Hf]]]].
  - exists []. repeat split. constructor.
  - cbn [collect filter]. rewrite (keyword_subset_ordinary kw df Hk), E.
    rewrite filter_nil_existsb.
    destruct (filter (fun c => icontains kw (c_title c)) df) as [|c sub] eqn:Es.
    + exists table. repeat split; assumption.
    + eexists. split; [reflexivity|]. split.
      * simpl. rewrite Hm. reflexivity.
      * constructor; [|exact Hf]. cbn [fst snd]. rewrite Es. auto.
Qed.

(** X20.  For a dataset whose titles are all text the keyword table has one
    entry for each of the ten keywords that occurs in some title, in any
    case, in the order of the keyword list, and none for the others; the
    entry holds the number of such records, which is at least one and at
    most the size of the dataset, and the mean of their rates. *)
Theorem keyword_table (df : list CanonicalRecord)
  (Htext : Forall (fun c => is_text (c_title c) = true) df) :
  exists table : list (string * nat * Q),
    keyword_data df = Some table
    /\ map (fun e => fst (fst e)) table
       = filter (fun kw => existsb (fun c => icontains kw (c_title c)) df)
                KEYWORDS
    /\ Forall (fun e =>
                 let subset :=
                   filter (fun c => icontains (fst (fst e)) (c_title c)) df in
                 snd (fst e) = List.length subset
                 /\ (1 <= snd (fst e) <= List.length df)%nat
                 /\ snd e = Salary.mean (map hourly_rate subset)) table.
Proof.
  destruct (collect_ordinary KEYWORDS df keywords_ordinary)
    as [table [E [Hm Hf]]].
  exists table. split; [|split; [exact Hm|]].
  - unfold keyword_data. destruct df as [|c df].
    + simpl in E. exact E.
    + rewrite (proj2 (forallb_forall _ _)); [exact E|].
      rewrite Forall_forall in Htext. exact Htext.
  - rewrite Forall_forall in *. intros e He.
    destruct (Hf e He) as [Hn Hmean]. split; [exact Hn|].
    split; [|exact Hmean].
    assert (Hin : In (fst (fst e)) (map (fun e => fst (fst e)) table))
      by (apply (in_map (fun e : string * nat * Q => fst (fst e))); exact He).
    rewrite Hm in Hin. apply filter_In in Hin as [_ Hex].
    rewrite filter_nil_existsb in Hex. rewrite Hn. split.
    + destruct (filter _ df); [discriminate | simpl; lia].
    + apply filter_length_le.
Qed.

Lemma keyword_table_witness :
  Forall (fun c => is_text (c_title c) = true) Normalizer.sample_clean
  /\ exists table : list (string * nat * Q),
       keyword_data Normalizer.sample_clean = Some table
       /\ map (fun e => fst (fst e)) table
          = ["Forklift"; "Driver"; "Packer"]%string.
Proof.
  assert (Htext : Forall (fun c => is_text (c_title c) = true)
                         Normalizer.sample_clean)
    by (repeat constructor).
  split; [exact Htext|].
  destruct (keyword_table Normalizer.sample_clean Htext)
    as [table [E [Hm _]]].
  exists table. split; [exact E | exact Hm].
Defined.

End KeywordMore.

(** ** From the raw frame to the dashboard *)

Module MainMore.
Import Normalizer Main NormalizerFacts NormalizerMore.

Lemma frame_empty_rows (raw : DataFrame) :
  frame_empty raw = false -> rows raw <> [].
Proof. unfold frame_empty. destruct (rows raw); discriminate. Qed.

Lemma frame_empty_iff (raw : DataFrame) :
  frame_empty raw = true <-> rows raw = [] \/ columns raw = [].
Proof.
  unfold frame_empty.
  destruct (rows raw) as [|r rs]; destruct (columns raw) as [|k ks];
    split; intros H; auto; try discriminate;
    destruct H as [E|E]; discriminate.
Qed.

Lemma finish_error (hb : bool) (ks : list (RawRecord * Q * string))
      (e : PyErr) :
  mapM (finish_row hb) ks = Raise e -> e = AttributeError \/ e = ValueError.
Proof.
  induction ks as [|[[r q] pd] ks IH]; simpl; [discriminate|].
  unfold finish_row at 1.
  destruct (City.extract_city (location r)) as [oc|e'] eqn:Eo; simpl.
  - destruct (mapM _ ks) as [cs|e'] eqn:Em; simpl; [discriminate|].
    intros E. injection E as ->. apply IH. reflexivity.
  - intros E. injection E as ->.
    destruct (location r) as [| |x|n|[|a [|b l']]];
      simpl in Eo; try discriminate; injection Eo as <-; auto.
Qed.

(** X21.  [main] stops without a message on a raw frame with no rows or no
    columns, and so never cleans an empty frame: the KeyError that cleaning
    raises on one cannot come out of [main].  On a raw frame that brings no
    [hourly_rate] column of its own it reports that no record is valid
    exactly when the frame has rows and columns and no row has a usable
    rate.  When it goes on to the sidebar, the dataset is the cleaned one,
    is not empty and has positive rates only.  Such a dataset, loaded again
    as the raw frame with all its columns, makes [main] fail with the
    ValueError of line 72. *)
Theorem prepare_outcomes (raw : DataFrame) :
  prepare raw <> Crashed (KeyError "hourly_rate")
  /\ (prepare raw = NoRawData <-> rows raw = [] \/ columns raw = [])
  /\ (has_column raw "hourly_rate" = false ->
      (prepare raw = NoValidRecords <->
       frame_empty raw = false /\ filter (usable raw) (rows raw) = []))
  /\ (forall df, prepare raw = Ready df ->
        df <> [] /\ clean_and_process_data raw = Ok df
        /\ Forall (fun c => (0 < hourly_rate c)%Q) df
        /\ prepare (canonical_frame df) = Crashed ValueError).
Proof.
  assert (Hre : forall df, df <> [] ->
                  prepare (canonical_frame df) = Crashed ValueError).
  { intros [|c cs] Hne; [congruence|]. reflexivity. }
  unfold prepare at 1 2 3 4. destruct (frame_empty raw) eqn:Ef.
  - split; [discriminate|]. split; [|split].
    + rewrite <- frame_empty_iff. tauto.
    + intros _. split; [discriminate | intros [E _]; discriminate].
    + discriminate.
  - pose proof (frame_empty_rows raw Ef) as Hrows.
    assert (Hemp : ~ (rows raw = [] \/ columns raw = [])).
    { rewrite <- frame_empty_iff. congruence. }
    destruct (has_column raw "salary" && has_column raw "hourly_rate")
      eqn:Ed.
    + apply andb_true_iff in Ed as [Hs Hr].
      rewrite (clean_doubled_label raw Hrows Hs Hr).
      split; [discriminate|]. split; [split; [discriminate | tauto]|].
      split; [|discriminate].
      intros Hr'. rewrite Hr' in Hr. discriminate.
    + pose proof (clean_nonempty raw Hrows Ed) as Ec.
      destruct (filter_map keep_row (salary_data raw)) as [|k ks] eqn:Ek.
      * rewrite Ec. apply kept_none in Ek.
        split; [discriminate|]. split; [split; [discriminate | tauto]|].
        split; [|discriminate]. intros _. split; auto.
      * assert (Hu : filter (usable raw) (rows raw) <> []).
        { intros E. apply kept_none in E. congruence. }
        destruct (clean_and_process_data raw) as [[|c df]|e] eqn:Eo.
        -- exfalso. apply clean_rows in Eo. inversion Eo. congruence.
        -- split; [discriminate|]. split; [split; [discriminate | tauto]|].
           split.
           ++ intros _. split; [discriminate | intros [_ E]; congruence].
           ++ intros df' E. injection E as <-.
              split; [discriminate|]. split; [reflexivity|].
              split; [|apply Hre; discriminate].
              apply clean_canonical in Eo.
              apply (Forall_impl _ (P := canonical_ok)); [|exact Eo].
              intros x [_ [Hq _]]. exact Hq.
        -- split.
           ++ intros E. injection E as ->.
              destruct (has_column raw "location"); [|discriminate].
              symmetry in Ec. apply finish_error in Ec as [Ec|Ec];
                discriminate.
           ++ split; [split; [discriminate | tauto]|].
              split; [|discriminate]. intros _.
              split; [discriminate | intros [_ E]; congruence].
Qed.

Lemma prepare_outcomes_witness :
  prepare sample_frame = Ready sample_clean
  /\ Forall (fun c => (0 < hourly_rate c)%Q) sample_clean
  /\ prepare (canonical_frame sample_clean) = Crashed ValueError.
Proof.
  assert (E : prepare sample_frame = Ready sample_clean) by reflexivity.
  split; [exact E|].
  exact (proj2 (proj2 (proj2 (proj2 (proj2 (prepare_outcomes sample_frame)))
                               sample_clean E))).
Defined.

End MainMore.
